(** * NeuroFeed: the feed ingestion pipeline of [core/rss_parser.py]

    A shallow embedding of [RssParser] ([_convert_to_local_time],
    [_clean_html], [refresh_settings], [fetch_feed]) together with the
    library functions it calls ([str] methods, the two regular expressions,
    [hashlib.md5], [datetime]), followed by the properties of the pipeline.

    Python values are modelled as follows:
    - a [str] is the list of its Unicode code points ([N]);
    - [bytes] is a list of octets ([N] below 256);
    - an [int] is a [Z], a [len(...)] is a [nat];
    - an attribute or key that may be missing is an [option];
    - a call that may raise returns a [result]; calls on collaborators
      (configuration, article store, feed fetcher, chat-source parser)
      additionally thread the state of the outside world. *)

From Stdlib Require Import String Ascii List NArith ZArith Bool Lia.
Import ListNotations.

Set Implicit Arguments.

(* ================================================================== *)
(** * Python strings *)
(* ================================================================== *)

Module Str.

Local Open Scope N_scope.

(** A Python [str]: its sequence of code points. *)
Definition str := list N.

(** A Python [bytes] object. *)
Definition bytes := list N.

(** Decoding of the UTF-8 bytes of a literal into code points; only used to
    write the string literals of the source. *)
Fixpoint utf8_decode (bs : bytes) : str :=
  match bs with
  | [] => []
  | b0 :: t0 =>
    if b0 <? 0x80 then b0 :: utf8_decode t0 else
    match t0 with
    | [] => [b0]
    | b1 :: t1 =>
      if b0 <? 0xE0 then ((b0 mod 0x20) * 0x40 + b1 mod 0x40) :: utf8_decode t1 else
      match t1 with
      | [] => [b0; b1]
      | b2 :: t2 =>
        if b0 <? 0xF0
        then ((b0 mod 0x10) * 0x1000 + (b1 mod 0x40) * 0x40 + b2 mod 0x40) :: utf8_decode t2
        else
        match t2 with
        | [] => [b0; b1; b2]
        | b3 :: t3 =>
          ((b0 mod 0x08) * 0x40000 + (b1 mod 0x40) * 0x1000
           + (b2 mod 0x40) * 0x40 + b3 mod 0x40) :: utf8_decode t3
        end
      end
    end
  end.

(** The [str] written by a literal of the source. *)
Definition lit (s : string) : str :=
  utf8_decode (map N_of_ascii (list_ascii_of_string s)).

Arguments lit : simpl never.

(** [bool(s)] for a [str]. *)
Definition truthy (s : str) : bool :=
  match s with [] => false | _ :: _ => true end.

(** [bool(o)] for a value that is [None] or a [str]. *)
Definition truthy_opt (o : option str) : bool :=
  match o with None => false | Some s => truthy s end.

Fixpoint eqb (a b : str) : bool :=
  match a, b with
  | [], [] => true
  | x :: a', y :: b' => (x =? y) && eqb a' b'
  | _, _ => false
  end.

(** [s.startswith(p)]. *)
Fixpoint startswith (p s : str) : bool :=
  match p, s with
  | [], _ => true
  | x :: p', y :: s' => (x =? y) && startswith p' s'
  | _ :: _, [] => false
  end.

(** [p in s]: [p] occurs in [s] as a substring. *)
Fixpoint contains (p s : str) : bool :=
  startswith p s || match s with [] => false | _ :: s' => contains p s' end.

(** [str.isspace] on one character, which is also the class [\s] of [re]
    for [str] patterns. *)
Definition isspace (c : N) : bool :=
  ((0x09 <=? c) && (c <=? 0x0D)) || ((0x1C <=? c) && (c <=? 0x20))
  || (c =? 0x85) || (c =? 0xA0) || (c =? 0x1680)
  || ((0x2000 <=? c) && (c <=? 0x200A))
  || (c =? 0x2028) || (c =? 0x2029) || (c =? 0x202F) || (c =? 0x205F)
  || (c =? 0x3000).

(** The line boundaries of [str.splitlines]. *)
Definition is_linebreak (c : N) : bool :=
  ((0x0A <=? c) && (c <=? 0x0D)) || ((0x1C <=? c) && (c <=? 0x1E))
  || (c =? 0x85) || (c =? 0x2028) || (c =? 0x2029).

(** [s.lstrip()]. *)
Fixpoint lstrip (s : str) : str :=
  match s with
  | [] => []
  | c :: s' => if isspace c then lstrip s' else s
  end.

(** [s.rstrip()]: a character is dropped when it is whitespace and nothing
    is kept after it. *)
Fixpoint rstrip (s : str) : str :=
  match s with
  | [] => []
  | c :: s' =>
    match rstrip s' with
    | [] => if isspace c then [] else [c]
    | r => c :: r
    end
  end.

(** [s.strip()]. *)
Definition strip (s : str) : str := rstrip (lstrip s).

(** [s.splitlines()]: a carriage return followed by a line feed is one
    boundary, and a final boundary opens no empty last line. *)
Fixpoint splitlines (s : str) : list str :=
  match s with
  | [] => []
  | c :: s' =>
    if is_linebreak c then
      [] :: match s' with
            | c' :: s'' => if (c =? 0x0D) && (c' =? 0x0A) then splitlines s'' else splitlines s'
            | [] => splitlines s'
            end
    else
      match splitlines s' with
      | [] => [[c]]
      | l :: ls => (c :: l) :: ls
      end
  end.

(** [sep.join(ls)]. *)
Fixpoint join (sep : str) (ls : list str) : str :=
  match ls with
  | [] => []
  | [l] => l
  | l :: ls' => l ++ sep ++ join sep ls'
  end.

(** ** Number formatting *)

Definition digit_char (d : N) : N :=
  if d <? 10 then 0x30 + d else 0x61 + (d - 10).

Fixpoint uint_digits (u : Decimal.uint) : str :=
  match u with
  | Decimal.Nil => []
  | Decimal.D0 u' => 0x30 :: uint_digits u'
  | Decimal.D1 u' => 0x31 :: uint_digits u'
  | Decimal.D2 u' => 0x32 :: uint_digits u'
  | Decimal.D3 u' => 0x33 :: uint_digits u'
  | Decimal.D4 u' => 0x34 :: uint_digits u'
  | Decimal.D5 u' => 0x35 :: uint_digits u'
  | Decimal.D6 u' => 0x36 :: uint_digits u'
  | Decimal.D7 u' => 0x37 :: uint_digits u'
  | Decimal.D8 u' => 0x38 :: uint_digits u'
  | Decimal.D9 u' => 0x39 :: uint_digits u'
  end.

(** [str(n)] for a natural number: ["%d" % n]. *)
Definition decimal (n : N) : str :=
  match n with
  | 0 => [0x30]
  | _ => uint_digits (N.to_uint n)
  end.

(** ["%0*d" % (width, n)]: zero padding on the left. *)
Definition zfill (width : nat) (s : str) : str :=
  repeat 0x30 (width - length s)%nat ++ s.

(** ["%04x" % c]: four lower-case hexadecimal digits. *)
Definition hex4 (c : N) : str :=
  [digit_char (c / 0x1000 mod 16); digit_char (c / 0x100 mod 16);
   digit_char (c / 0x10 mod 16); digit_char (c mod 16)].

End Str.

Import Str.

(* ================================================================== *)
(** * Exceptions *)
(* ================================================================== *)

(** A raised exception: [type(e).__name__] and [str(e)]. *)
Record Exception : Type := mkException { exc_type : str; exc_str : str }.

(** The built-in classes that do not derive from [Exception]: the root of
    the hierarchy, an interrupt, an exit request, the close of a generator
    and the group of such faults. *)
Definition outside_Exception : list str :=
  [lit "BaseException"; lit "BaseExceptionGroup"; lit "GeneratorExit";
   lit "KeyboardInterrupt"; lit "SystemExit"].

(** [isinstance(e, Exception)], the test an [except Exception] clause
    makes.  The class of [e] is known by its name, so the test is exact
    for the built-in classes and for every class that derives from
    [Exception]; a class of another library defined directly on
    [BaseException] is not told apart. *)
Definition isinstance_Exception (e : Exception) : bool :=
  negb (existsb (Str.eqb (exc_type e)) outside_Exception).

(** The outcome of a call that may raise. *)
Inductive result (A : Type) : Type :=
| Ok (a : A)
| Raise (e : Exception).

Arguments Ok {A} a.
Arguments Raise {A} e.

Definition result_bind {A B} (r : result A) (k : A -> result B) : result B :=
  match r with
  | Ok a => k a
  | Raise e => Raise e
  end.

(* ================================================================== *)
(** * [str.encode('utf-8')] and [hashlib.md5] *)
(* ================================================================== *)

Module Codec.

Local Open Scope N_scope.

Definition is_surrogate (c : N) : bool := (0xD800 <=? c) && (c <=? 0xDFFF).

(** The UTF-8 bytes of one code point that is not a surrogate. *)
Definition encode_char (c : N) : bytes :=
  if c <? 0x80 then [c]
  else if c <? 0x800 then [0xC0 + c / 0x40; 0x80 + c mod 0x40]
  else if c <? 0x10000 then
    [0xE0 + c / 0x1000; 0x80 + (c / 0x40) mod 0x40; 0x80 + c mod 0x40]
  else
    [0xF0 + c / 0x40000; 0x80 + (c / 0x1000) mod 0x40;
     0x80 + (c / 0x40) mod 0x40; 0x80 + c mod 0x40].

(** The number of surrogates [s] starts with. *)
Fixpoint surrogate_run (s : str) : N :=
  match s with
  | [] => 0
  | c :: s' => if is_surrogate c then 1 + surrogate_run s' else 0
  end.

(** The [UnicodeEncodeError] of the strict error handler for the run of
    [len] surrogates that starts with [c] at position [pos]. *)
Definition UnicodeEncodeError (pos c len : N) : Exception :=
  mkException (lit "UnicodeEncodeError")
    (if len =? 1
     then lit "'utf-8' codec can't encode character '\ud" ++ skipn 1 (hex4 c)
          ++ lit "' in position " ++ decimal pos ++ lit ": surrogates not allowed"
     else lit "'utf-8' codec can't encode characters in position " ++ decimal pos
          ++ lit "-" ++ decimal (pos + len - 1) ++ lit ": surrogates not allowed").

Fixpoint encode_from (pos : N) (s : str) : result bytes :=
  match s with
  | [] => Ok []
  | c :: s' =>
    if is_surrogate c then Raise (UnicodeEncodeError pos c (surrogate_run s))
    else result_bind (encode_from (pos + 1) s') (fun bs => Ok (encode_char c ++ bs))
  end.

(** [s.encode('utf-8')]: a lone surrogate cannot be encoded. *)
Definition encode_utf8 (s : str) : result bytes := encode_from 0 s.

End Codec.

Module Hashlib.

Local Open Scope N_scope.

Definition add32 (a b : N) : N := (a + b) mod 0x100000000.

Definition rotl32 (x : N) (n : N) : N :=
  N.lor (N.shiftl x n mod 0x100000000) (N.shiftr x (32 - n)).

Definition not32 (x : N) : N := N.lxor x 0xFFFFFFFF.

(** The sine table of MD5 (RFC 1321): [floor(2^32 * abs(sin(i + 1)))]. *)
Definition K : list N :=
  [0xd76aa478; 0xe8c7b756; 0x242070db; 0xc1bdceee; 0xf57c0faf; 0x4787c62a;
   0xa8304613; 0xfd469501; 0x698098d8; 0x8b44f7af; 0xffff5bb1; 0x895cd7be;
   0x6b901122; 0xfd987193; 0xa679438e; 0x49b40821; 0xf61e2562; 0xc040b340;
   0x265e5a51; 0xe9b6c7aa; 0xd62f105d; 0x02441453; 0xd8a1e681; 0xe7d3fbc8;
   0x21e1cde6; 0xc33707d6; 0xf4d50d87; 0x455a14ed; 0xa9e3e905; 0xfcefa3f8;
   0x676f02d9; 0x8d2a4c8a; 0xfffa3942; 0x8771f681; 0x6d9d6122; 0xfde5380c;
   0xa4beea44; 0x4bdecfa9; 0xf6bb4b60; 0xbebfbc70; 0x289b7ec6; 0xeaa127fa;
   0xd4ef3085; 0x04881d05; 0xd9d4d039; 0xe6db99e5; 0x1fa27cf8; 0xc4ac5665;
   0xf4292244; 0x432aff97; 0xab9423a7; 0xfc93a039; 0x655b59c3; 0x8f0ccc92;
   0xffeff47d; 0x85845dd1; 0x6fa87e4f; 0xfe2ce6e0; 0xa3014314; 0x4e0811a1;
   0xf7537e82; 0xbd3af235; 0x2ad7d2bb; 0xeb86d391].

(** The per-round rotation amounts. *)
Definition S : list N :=
  [7; 12; 17; 22; 7; 12; 17; 22; 7; 12; 17; 22; 7; 12; 17; 22;
   5; 9; 14; 20; 5; 9; 14; 20; 5; 9; 14; 20; 5; 9; 14; 20;
   4; 11; 16; 23; 4; 11; 16; 23; 4; 11; 16; 23; 4; 11; 16; 23;
   6; 10; 15; 21; 6; 10; 15; 21; 6; 10; 15; 21; 6; 10; 15; 21].

Definition md5_state : Type := (N * N * N * N)%type.

Definition md5_init : md5_state :=
  (0x67452301, 0xefcdab89, 0x98badcfe, 0x10325476).

(** One of the 64 operations of a block, on the message words [M]. *)
Definition md5_op (M : list N) (st : md5_state) (iks : N * (N * N)) : md5_state :=
  let '(a, b, c, d) := st in
  let '(i, (k, s)) := iks in
  let '(f, g) :=
    if i <? 16 then (N.lor (N.land b c) (N.land (not32 b) d), i)
    else if i <? 32 then (N.lor (N.land d b) (N.land (not32 d) c), (5 * i + 1) mod 16)
    else if i <? 48 then (N.lxor (N.lxor b c) d, (3 * i + 5) mod 16)
    else (N.lxor c (N.lor b (not32 d)), (7 * i) mod 16) in
  let f' := add32 (add32 (add32 f a) k) (nth (N.to_nat g) M 0) in
  (d, add32 b (rotl32 f' s), b, c).

Definition md5_schedule : list (N * (N * N)) :=
  combine (map N.of_nat (seq 0 64)) (combine K S).

(** The 32-bit little-endian words of a block. *)
Fixpoint le_words (bs : bytes) : list N :=
  match bs with
  | b0 :: b1 :: b2 :: b3 :: r =>
    (b0 + 0x100 * b1 + 0x10000 * b2 + 0x1000000 * b3) :: le_words r
  | _ => []
  end.

Definition md5_block (st : md5_state) (block : bytes) : md5_state :=
  let '(a0, b0, c0, d0) := st in
  let '(a, b, c, d) := fold_left (md5_op (le_words block)) md5_schedule st in
  (add32 a0 a, add32 b0 b, add32 c0 c, add32 d0 d).

Fixpoint md5_blocks (n : nat) (bs : bytes) (st : md5_state) : md5_state :=
  match n with
  | O => st
  | Datatypes.S n' => md5_blocks n' (skipn 64 bs) (md5_block st (firstn 64 bs))
  end.

(** [n] as [k] little-endian bytes. *)
Fixpoint le_bytes (k : nat) (n : N) : bytes :=
  match k with
  | O => []
  | Datatypes.S k' => n mod 0x100 :: le_bytes k' (n / 0x100)
  end.

(** The message followed by the bit 1, zeros up to 56 modulo 64 bytes, and
    the length in bits on 64 bits. *)
Definition md5_pad (bs : bytes) : bytes :=
  let len := N.of_nat (length bs) in
  bs ++ [0x80] ++ repeat 0 (N.to_nat ((119 - len mod 64) mod 64))
     ++ le_bytes 8 ((8 * len) mod 0x10000000000000000).

(** [hashlib.md5(bs).digest()]. *)
Definition md5 (bs : bytes) : bytes :=
  let padded := md5_pad bs in
  let '(a, b, c, d) := md5_blocks (length padded / 64) padded md5_init in
  le_bytes 4 a ++ le_bytes 4 b ++ le_bytes 4 c ++ le_bytes 4 d.

Definition hex_byte (b : N) : str := [digit_char (b / 16); digit_char (b mod 16)].

(** [hashlib.md5(bs).hexdigest()]. *)
Definition md5_hexdigest (bs : bytes) : str := flat_map hex_byte (md5 bs).

End Hashlib.

(* ================================================================== *)
(** * The two regular expressions of [_clean_html] *)
(* ================================================================== *)

Module Re.

Local Open Scope N_scope.

(** The longest prefix of [s] matched by [[^<]*], and what follows it. *)
Fixpoint span_not_lt (s : str) : str * str :=
  match s with
  | [] => ([], [])
  | c :: s' =>
    if c =? 0x3C then ([], s)
    else let (t, r) := span_not_lt s' in (c :: t, r)
  end.

(** Group 1 of a match of the pattern [<em>(G)</em>], where [G] is any
    number of characters other than ["<"], at the start of [s].  The
    group stops at the first ["<"] or at the end of the text, so giving back
    characters of a greedy match never helps: the closing tag starts with
    ["<"]. *)
Definition match_em (s : str) : option str :=
  if startswith (lit "<em>") s then
    let (t, r) := span_not_lt (skipn 4 s) in
    if startswith (lit "</em>") r then Some t else None
  else None.

(** [sub_em_from skip s]: the substitution on [s], whose first [skip]
    characters belong to a match already replaced. *)
Fixpoint sub_em_from (skip : nat) (s : str) : str :=
  match s with
  | [] => []
  | c :: s' =>
    match skip with
    | S k => sub_em_from k s'
    | O =>
      match match_em s with
      | Some t => t ++ sub_em_from (3 + length t + 5) s'
      | None => c :: sub_em_from 0 s'
      end
    end
  end.

(** [re.sub] of the emphasis pattern with the replacement [r'\1']: every
    match, leftmost first and without overlap, is replaced by its
    group 1. *)
Definition sub_em (s : str) : str := sub_em_from 0 s.

(** [sub_ws_from in_run s]: the substitution on [s], which follows a
    whitespace character of the same run when [in_run]. *)
Fixpoint sub_ws_from (in_run : bool) (s : str) : str :=
  match s with
  | [] => []
  | c :: s' =>
    if isspace c then
      if in_run then sub_ws_from true s' else 0x20 :: sub_ws_from true s'
    else c :: sub_ws_from false s'
  end.

(** [re.sub(r'\s+', ' ', s)]: every maximal run of whitespace becomes one
    space. *)
Definition sub_ws (s : str) : str := sub_ws_from false s.

End Re.

(* ================================================================== *)
(** * [datetime] *)
(* ================================================================== *)

Module Datetime.

Local Open Scope Z_scope.

(** A [datetime] object.  [tzinfo] is [None] for a naive value; for an
    aware value it holds [utcoffset()] in seconds. *)
Record datetime : Type := mkDatetime {
  year : Z; month : Z; day : Z;
  hour : Z; minute : Z; second : Z; microsecond : Z;
  tzinfo : option Z
}.

(** The first six fields of a [time.struct_time], as in
    [entry.published_parsed[:6]]. *)
Record struct_time : Type := mkStructTime {
  tm_year : Z; tm_mon : Z; tm_mday : Z; tm_hour : Z; tm_min : Z; tm_sec : Z
}.

Definition MINYEAR : Z := 1.
Definition MAXYEAR : Z := 9999.
(** [date.max.toordinal()]. *)
Definition MAXORDINAL : Z := 3652059.

Definition _DAYS_IN_MONTH : list Z := [-1; 31; 28; 31; 30; 31; 30; 31; 31; 30; 31; 30; 31].
Definition _DAYS_BEFORE_MONTH : list Z := [-1; 0; 31; 59; 90; 120; 151; 181; 212; 243; 273; 304; 334].

Definition _is_leap (y : Z) : bool :=
  (y mod 4 =? 0) && (negb (y mod 100 =? 0) || (y mod 400 =? 0)).

Definition _days_before_year (y : Z) : Z :=
  let y := y - 1 in y * 365 + y / 4 - y / 100 + y / 400.

Definition _days_in_month (y m : Z) : Z :=
  if (m =? 2) && _is_leap y then 29 else nth (Z.to_nat m) _DAYS_IN_MONTH 0.

Definition _days_before_month (y m : Z) : Z :=
  nth (Z.to_nat m) _DAYS_BEFORE_MONTH 0 + (if (2 <? m) && _is_leap y then 1 else 0).

(** The proleptic Gregorian ordinal of a date: 1 for 0001-01-01. *)
Definition _ymd2ord (y m d : Z) : Z :=
  _days_before_year y + _days_before_month y m + d.

Definition _DI400Y : Z := 146097.
Definition _DI100Y : Z := 36524.
Definition _DI4Y : Z := 1461.

(** The date of an ordinal. *)
Definition _ord2ymd (n : Z) : Z * Z * Z :=
  let n := n - 1 in
  let n400 := n / _DI400Y in let n := n mod _DI400Y in
  let y := n400 * 400 + 1 in
  let n100 := n / _DI100Y in let n := n mod _DI100Y in
  let n4 := n / _DI4Y in let n := n mod _DI4Y in
  let n1 := n / 365 in let n := n mod 365 in
  let y := y + n100 * 100 + n4 * 4 + n1 in
  if (n1 =? 4) || (n100 =? 4) then (y - 1, 12, 31)
  else
    let leapyear := (n1 =? 3) && (negb (n4 =? 24) || (n100 =? 3)) in
    let m := Z.shiftr (n + 50) 5 in
    let preceding :=
      nth (Z.to_nat m) _DAYS_BEFORE_MONTH 0 + (if (2 <? m) && leapyear then 1 else 0) in
    if n <? preceding then
      let m := m - 1 in
      let preceding :=
        preceding
        - (nth (Z.to_nat m) _DAYS_IN_MONTH 0 + (if (m =? 2) && leapyear then 1 else 0)) in
      (y, m, n - preceding + 1)
    else (y, m, n - preceding + 1).

Definition ValueError (msg : str) : Exception := mkException (lit "ValueError") msg.

Definition OverflowError : Exception :=
  mkException (lit "OverflowError") (lit "date value out of range").

(** The text of a non-negative integer. *)
Definition dec (z : Z) : str := decimal (Z.to_N z).

(** An argument of the constructor of [datetime], converted to a C
    [int] (through a C [long] of 64 bits): the conversion raises
    [OverflowError] for an integer that does not fit. *)
Definition as_c_int (z : Z) : result Z :=
  if (z <? - 2 ^ 63) || (2 ^ 63 - 1 <? z) then
    Raise (mkException (lit "OverflowError")
                       (lit "Python int too large to convert to C long"))
  else if 2 ^ 31 - 1 <? z then
    Raise (mkException (lit "OverflowError") (lit "signed integer is greater than maximum"))
  else if z <? - 2 ^ 31 then
    Raise (mkException (lit "OverflowError") (lit "signed integer is less than minimum"))
  else Ok z.

(** [datetime] applied to the six fields [t[:6]]: a naive value, after
    the conversion of the arguments, in their order, and the range checks
    of the constructor. *)
Definition datetime_of_struct_time (t : struct_time) : result datetime :=
  result_bind (as_c_int (tm_year t)) (fun y =>
  result_bind (as_c_int (tm_mon t)) (fun mon =>
  result_bind (as_c_int (tm_mday t)) (fun mday =>
  result_bind (as_c_int (tm_hour t)) (fun hour_ =>
  result_bind (as_c_int (tm_min t)) (fun min_ =>
  result_bind (as_c_int (tm_sec t)) (fun sec =>
  if (y <? MINYEAR) || (MAXYEAR <? y) then
    Raise (ValueError (lit "year " ++ (if y <? 0 then lit "-" ++ dec (- y) else dec y)
                       ++ lit " is out of range"))
  else if (mon <? 1) || (12 <? mon) then
    Raise (ValueError (lit "month must be in 1..12"))
  else if (mday <? 1) || (_days_in_month y mon <? mday) then
    Raise (ValueError (lit "day is out of range for month"))
  else if (hour_ <? 0) || (23 <? hour_) then
    Raise (ValueError (lit "hour must be in 0..23"))
  else if (min_ <? 0) || (59 <? min_) then
    Raise (ValueError (lit "minute must be in 0..59"))
  else if (sec <? 0) || (59 <? sec) then
    Raise (ValueError (lit "second must be in 0..59"))
  else
    Ok (mkDatetime y mon mday hour_ min_ sec 0 None))))))).

(** [dt.replace(tzinfo=tz)]. *)
Definition replace_tzinfo (dt : datetime) (tz : option Z) : datetime :=
  mkDatetime (year dt) (month dt) (day dt) (hour dt) (minute dt) (second dt)
             (microsecond dt) tz.

(** [pytz.UTC]. *)
Definition UTC : option Z := Some 0.

(** [dt + timedelta(seconds=delta)]: the fields are renormalised through
    the ordinal of the date, and a date outside [date.min .. date.max]
    raises [OverflowError]. *)
Definition add_seconds (dt : datetime) (delta : Z) : result datetime :=
  let secs := hour dt * 3600 + minute dt * 60 + second dt + delta in
  let days := _ymd2ord (year dt) (month dt) (day dt) + secs / 86400 in
  let rem := secs mod 86400 in
  if (0 <? days) && (days <=? MAXORDINAL) then
    let '(y, m, d) := _ord2ymd days in
    Ok (mkDatetime y m d (rem / 3600) (rem mod 3600 / 60) (rem mod 60)
                   (microsecond dt) (tzinfo dt))
  else Raise OverflowError.

(** [dt.astimezone(tz)] for the fixed-offset zone [tz] (seconds east of
    UTC): [dt] is first brought to UTC, then [tz.fromutc] adds the offset
    of [tz].  The pipeline only calls it on aware values; a naive value
    would be read in the system zone, taken to be [tz] here. *)
Definition astimezone (dt : datetime) (tz : Z) : result datetime :=
  let offset := match tzinfo dt with Some off => off | None => tz end in
  result_bind (add_seconds dt (- offset)) (fun utc =>
  add_seconds (replace_tzinfo utc (Some tz)) tz).

Definition two (z : Z) : str := zfill 2 (dec z).

(** [dt.isoformat()]. *)
Definition isoformat (dt : datetime) : str :=
  zfill 4 (dec (year dt)) ++ lit "-" ++ two (month dt) ++ lit "-" ++ two (day dt)
  ++ lit "T" ++ two (hour dt) ++ lit ":" ++ two (minute dt) ++ lit ":" ++ two (second dt)
  ++ (if microsecond dt =? 0 then [] else lit "." ++ zfill 6 (dec (microsecond dt)))
  ++ match tzinfo dt with
     | None => []
     | Some off =>
       let a := Z.abs off in
       (if off <? 0 then lit "-" else lit "+")
       ++ two (a / 3600) ++ lit ":" ++ two (a mod 3600 / 60)
       ++ (if a mod 60 =? 0 then [] else lit ":" ++ two (a mod 60))
     end.

(** The instant a value denotes, in seconds since the start of day 0 of the
    ordinal calendar, for a value read at [off] seconds east of UTC. *)
Definition utc_seconds (dt : datetime) (off : Z) : Z :=
  _ymd2ord (year dt) (month dt) (day dt) * 86400
  + hour dt * 3600 + minute dt * 60 + second dt - off.

(** The class invariant of [datetime]: every field in its range. *)
Definition valid (dt : datetime) : Prop :=
  MINYEAR <= year dt <= MAXYEAR /\ 1 <= month dt <= 12
  /\ 1 <= day dt <= _days_in_month (year dt) (month dt)
  /\ 0 <= hour dt <= 23 /\ 0 <= minute dt <= 59 /\ 0 <= second dt <= 59.

End Datetime.

(* ================================================================== *)
(** * A reference HTML-to-text capability *)
(* ================================================================== *)

(** [_clean_html] and [fetch_feed] below take the markup parser as a
    parameter.  This module gives one instance, used to run the pipeline on
    concrete inputs: the text that
    [BeautifulSoup(html, "html.parser").get_text(separator='\n', strip=True)]
    extracts, on the fragment of HTML made of
    - start and end tags ["<" letter ... ">"] and ["</" letter ... ">"]
      whose first [">"] closes them,
    - the character references [&lt;], [&gt;], [&amp;] and [&quot;],
    - marked sections ["<![" keyword "["] with a lower-case keyword, which
      [html.parser] rejects (and [bs4] reports as [ParserRejectedMarkup])
      when the keyword is not one it knows,
    - and text.
    Unwrapping the [em] tags of the tree changes no text node.  Outside
    the fragment, and not to be read off this instance: the elements
    [script], [style] and [template], whose text [get_text] leaves out;
    marked sections with a keyword [html.parser] knows; comments,
    declarations, other references and unterminated tags. *)
Module Soup.

Local Open Scope N_scope.

Definition is_ascii_letter (c : N) : bool :=
  ((0x41 <=? c) && (c <=? 0x5A)) || ((0x61 <=? c) && (c <=? 0x7A)).

Definition is_lower (c : N) : bool := (0x61 <=? c) && (c <=? 0x7A).

(** ["<" letter] or ["</" letter], with a [">"] further on. *)
Definition opens_tag (s : str) : bool :=
  match s with
  | c0 :: c1 :: r =>
    (c0 =? 0x3C)
    && (is_ascii_letter c1
        || ((c1 =? 0x2F) && match r with c2 :: _ => is_ascii_letter c2 | [] => false end))
    && existsb (N.eqb 0x3E) r
  | _ => false
  end.

(** The character a reference at the start of [s] stands for, and the
    number of characters of the reference after its ["&"]. *)
Definition entity (s : str) : option (N * nat) :=
  if startswith (lit "&lt;") s then Some (0x3C, 3%nat)
  else if startswith (lit "&gt;") s then Some (0x3E, 3%nat)
  else if startswith (lit "&amp;") s then Some (0x26, 4%nat)
  else if startswith (lit "&quot;") s then Some (0x22, 5%nat)
  else None.

Fixpoint span_lower (s : str) : str * str :=
  match s with
  | [] => ([], [])
  | c :: s' =>
    if is_lower c then let (t, r) := span_lower s' in (c :: t, r) else ([], s)
  end.

Definition known_keywords : list str :=
  map lit ["temp"; "cdata"; "ignore"; "include"; "rcdata"; "if"; "else"; "endif"]%string.

Definition ParserRejectedMarkup (keyword : str) : Exception :=
  mkException (lit "ParserRejectedMarkup")
    (lit "AssertionError: unknown status keyword '" ++ keyword
     ++ lit "' in marked section").

(** The fault raised for a marked section at the start of [s]. *)
Definition marked_section (s : str) : option Exception :=
  if startswith (lit "<![") s then
    let (name, r) := span_lower (skipn 3 s) in
    if truthy name && startswith (lit "[") r && negb (existsb (Str.eqb name) known_keywords)
    then Some (ParserRejectedMarkup name) else None
  else None.

Definition cons_head (c : N) (nodes : list str) : list str :=
  match nodes with
  | [] => [[c]]
  | n :: r => (c :: n) :: r
  end.

(** The text nodes of the document, in document order: a tag ends the
    current node.  [in_tag]: inside a tag; [skip]: characters of a
    reference still to pass. *)
Fixpoint text_nodes (in_tag : bool) (skip : nat) (s : str) : result (list str) :=
  match s with
  | [] => Ok [[]]
  | c :: s' =>
    match skip with
    | S k => text_nodes in_tag k s'
    | O =>
      if in_tag then text_nodes (negb (c =? 0x3E)) 0 s'
      else
        match marked_section s with
        | Some e => Raise e
        | None =>
          if opens_tag s then
            result_bind (text_nodes true 0 s') (fun ns => Ok ([] :: ns))
          else
            match entity s with
            | Some (ch, k) =>
              result_bind (text_nodes false k s') (fun ns => Ok (cons_head ch ns))
            | None =>
              result_bind (text_nodes false 0 s') (fun ns => Ok (cons_head c ns))
            end
        end
    end
  end.

(** [get_text(separator='\n', strip=True)]: the stripped text nodes that
    are not empty, joined by a newline. *)
Definition get_text (s : str) : result str :=
  result_bind (text_nodes false 0 s) (fun ns =>
  Ok (join [0x0A] (filter truthy (map strip ns)))).

End Soup.

(* ================================================================== *)
(** * [RssParser._convert_to_local_time] and [RssParser._clean_html] *)
(* ================================================================== *)

Import Datetime.

(** [try: body except Exception as e: handler(e)] for a call without
    effect on the outside world: a fault outside [Exception] is not
    caught. *)
Definition result_try {A} (body : result A) (handler : Exception -> result A) : result A :=
  match body with
  | Ok a => Ok a
  | Raise e => if isinstance_Exception e then handler e else Raise e
  end.

(** [_convert_to_local_time(dt)], where [local_tz] is the offset of
    [datetime.now().astimezone().tzinfo]. *)
Definition _convert_to_local_time (local_tz : Z) (dt : option datetime)
  : result (option datetime) :=
  match dt with
  | None => Ok None
  | Some dt =>
    match tzinfo dt with
    | Some _ =>
      result_bind (astimezone dt local_tz) (fun r => Ok (Some r))
    | None =>
      let utc_dt := replace_tzinfo dt UTC in
      result_bind (astimezone utc_dt local_tz) (fun r => Ok (Some r))
    end
  end.

(** The lines kept by the loop of [_clean_html]: stripped, not empty, with
    inner whitespace runs collapsed. *)
Fixpoint processed_lines (lines : list str) : list str :=
  match lines with
  | [] => []
  | line :: rest =>
    let stripped_line := strip line in
    if truthy stripped_line
    then Re.sub_ws stripped_line :: processed_lines rest
    else processed_lines rest
  end.

Section Sanitizer.

(** The markup parser: [BeautifulSoup(html, "html.parser")], the unwrapping
    of the [em] tags left, and [get_text(separator='\n', strip=True)]. *)
Variable soup_get_text : str -> result str.

(** [_clean_html(html_content)].  The emphasis pre-pass rebinds
    [html_content], so the handler returns the text after the pre-pass. *)
Definition _clean_html (html_content : str) : result str :=
  if negb (truthy html_content) then Ok []
  else
    let html_content := Re.sub_em html_content in
    result_try
      (result_bind (soup_get_text html_content) (fun raw_text =>
       let cleaned_text := join [0x0A; 0x0A]%N (processed_lines (splitlines raw_text)) in
       Ok cleaned_text))
      (fun _ => Ok html_content).

End Sanitizer.

(* ================================================================== *)
(** * The data of [fetch_feed] *)
(* ================================================================== *)

(** An entry of a parsed feed ([feedparser]'s attribute dictionary): every
    attribute may be missing. *)
Record Entry : Type := mkEntry {
  entry_id : option str;
  entry_link : option str;
  entry_title : option str;
  entry_published_parsed : option struct_time;
  entry_updated_parsed : option struct_time;
  entry_summary : option str;
  (** [entry.content]: the [value] of each content element. *)
  entry_content : option (list str)
}.

(** [feed.feed]. *)
Record FeedMeta : Type := mkFeedMeta {
  meta_title : option str;
  meta_description : option str;
  meta_link : option str
}.

(** What [feedparser.parse] returns: [bool(feed)], [feed.entries] and
    [feed.feed] when the attributes exist. *)
Record ParsedFeed : Type := mkParsedFeed {
  feed_truthy : bool;
  feed_entries : option (list Entry);
  feed_feed : option FeedMeta
}.

(** An item of the chat-source parser, a dictionary; [fetch_feed] adds the
    key [article_id]. *)
Record WechatEntry : Type := mkWechatEntry {
  w_title : option str;
  w_link : option str;
  w_content : option str;
  w_source : option str;
  w_published : option str;
  w_article_id : option str
}.

(** The dictionary [parse_wechat_source] returns. *)
Record WechatResult : Type := mkWechatResult {
  wr_status : option str;
  wr_items : option (list WechatEntry);
  wr_error : option str
}.

(** The dictionary built for an entry of a generic feed. *)
Record ProcessedEntry : Type := mkProcessedEntry {
  pe_title : str;
  pe_link : option str;
  pe_summary : str;
  pe_published : option str;
  pe_source : str;
  pe_content : str;
  pe_article_id : str;
  pe_feed_url : str
}.

Inductive Item : Type :=
| RssItem (p : ProcessedEntry)
| WechatItem (w : WechatEntry).

Definition item_article_id (i : Item) : option str :=
  match i with
  | RssItem p => Some (pe_article_id p)
  | WechatItem w => w_article_id w
  end.

Record FeedInfo : Type := mkFeedInfo {
  info_title : str;
  info_description : str;
  info_link : str
}.

Record Stats : Type := mkStats {
  total_available : nat;
  processed : nat;
  skipped : nat
}.

(** The dictionary [fetch_feed] returns; a key that is not set is [None]. *)
Record FetchResult : Type := mkFetchResult {
  status : option str;
  items : option (list Item);
  error : option str;
  feed_info : option FeedInfo;
  stats : option Stats
}.

(** The arguments of [db_manager.add_news_article]. *)
Record NewsArticle : Type := mkNewsArticle {
  na_article_id : str;
  na_title : str;
  na_link : option str;
  na_source : str;
  na_published_date : option str;
  na_content_hash : option str
}.

(** [{"status": "fail", "error": msg, "items": []}]. *)
Definition fail_result (msg : str) : FetchResult :=
  mkFetchResult (Some (lit "fail")) (Some []) (Some msg) None None.

Definition success_result (its : list Item) (info : FeedInfo) (st : Stats) : FetchResult :=
  mkFetchResult (Some (lit "success")) (Some its) None (Some info) (Some st).

(** The chat-source result, returned as it is. *)
Definition wechat_result_as_is (r : WechatResult) : FetchResult :=
  mkFetchResult (wr_status r) (option_map (map WechatItem) (wr_items r)) (wr_error r)
                None None.

Definition is_success (r : FetchResult) : bool :=
  match status r with
  | Some s => Str.eqb s (lit "success")
  | None => false
  end.

(* ================================================================== *)
(** * Collaborators and the state of a call *)
(* ================================================================== *)

(** The collaborators of [RssParser], over the state [W] of the outside
    world (configuration file, article store, network, clock).  A call may
    change the world and may raise.
    - [load_config]: the setting [skip_processed_articles] of a freshly
      loaded configuration ([False] when missing);
    - [normalize_article_id]: the canonicalisation of the article store, a
      function of its argument;
    - [is_article_discarded_for_task] and [is_article_sent_for_task]:
      the task history, by article id and task id;
    - [add_news_article]: the upsert of the article store;
    - [parse_wechat_source]: the chat-source parser, by url and count;
    - [feedparser_parse]: [feedparser.parse];
    - [soup_get_text]: the markup parser of [_clean_html];
    - [local_utcoffset]: the offset of [datetime.now().astimezone().tzinfo];
    - [now_isoformat]: [datetime.now().isoformat()]. *)
Record Collaborators (W : Type) : Type := mkCollaborators {
  load_config : W -> result bool * W;
  normalize_article_id : str -> str;
  is_article_discarded_for_task : str -> str -> W -> result bool * W;
  is_article_sent_for_task : str -> str -> W -> result bool * W;
  add_news_article : NewsArticle -> W -> result unit * W;
  parse_wechat_source : str -> Z -> W -> result WechatResult * W;
  feedparser_parse : str -> W -> result ParsedFeed * W;
  soup_get_text : str -> result str;
  local_utcoffset : W -> Z;
  now_isoformat : W -> str
}.

(** The state a method of [RssParser] runs in: the attribute
    [self.skip_processed] and the outside world. *)
Record State (W : Type) : Type := mkState {
  skip_processed : bool;
  world : W
}.

Arguments mkState {W} _ _.

(** A computation that may raise and that updates the state; the state
    reached when it raises is kept. *)
Definition M (W A : Type) : Type := State W -> result A * State W.

Definition ret {W A} (a : A) : M W A := fun st => (Ok a, st).

Definition raise {W A} (e : Exception) : M W A := fun st => (Raise e, st).

Definition bind {W A B} (m : M W A) (k : A -> M W B) : M W B :=
  fun st =>
    match m st with
    | (Ok a, st') => k a st'
    | (Raise e, st') => (Raise e, st')
    end.

(** [try: body except Exception as e: handler(e)]: a fault outside
    [Exception] is not caught and goes on to the caller. *)
Definition try_except {W A} (body : M W A) (handler : Exception -> M W A) : M W A :=
  fun st =>
    match body st with
    | (Ok a, st') => (Ok a, st')
    | (Raise e, st') =>
      if isinstance_Exception e then handler e st' else (Raise e, st')
    end.

(** A call without effect on the world. *)
Definition lift {W A} (r : result A) : M W A := fun st => (r, st).

(** A call on a collaborator. *)
Definition call {W A} (f : W -> result A * W) : M W A :=
  fun st =>
    let (r, w) := f (world st) in (r, mkState (skip_processed st) w).

(** A read of the world. *)
Definition ask {W A} (f : W -> A) : M W A := fun st => (Ok (f (world st)), st).

Definition get_skip_processed {W} : M W bool := fun st => (Ok (skip_processed st), st).

Definition set_skip_processed {W} (b : bool) : M W unit :=
  fun st => (Ok tt, mkState b (world st)).

Declare Scope pipeline_scope.
Delimit Scope pipeline_scope with pipeline.

Notation "x <- m ;; k" := (bind m (fun x => k))
  (at level 61, m at next level, right associativity) : pipeline_scope.
Notation "m ;;; k" := (bind m (fun _ => k))
  (at level 61, right associativity) : pipeline_scope.

Definition AttributeError (msg : str) : Exception := mkException (lit "AttributeError") msg.
Definition KeyError (key : str) : Exception :=
  mkException (lit "KeyError") (lit "'" ++ key ++ lit "'").

(* ================================================================== *)
(** * [RssParser.refresh_settings] and [RssParser.fetch_feed] *)
(* ================================================================== *)

Import Codec.

(** [hashlib.md5(s.encode('utf-8')).hexdigest()]. *)
Definition md5_hex (s : str) : result str :=
  result_bind (encode_utf8 s) (fun bs => Ok (Hashlib.md5_hexdigest bs)).

(** [o if o is present else d]: the default of a [get] or [getattr]. *)
Definition get_default (o : option str) (d : str) : str :=
  match o with Some s => s | None => d end.

(** The two skip reasons, for the task [tid]. *)
Definition reason_discarded (tid : str) : str := lit "在任务 " ++ tid ++ lit " 中被丢弃过".
Definition reason_sent (tid : str) : str := lit "在任务 " ++ tid ++ lit " 中已发送过".

Section RssParser.

Variable W : Type.
Variable env : Collaborators W.

Local Open Scope pipeline_scope.

(** [refresh_settings()]: a fault while loading the configuration leaves
    [self.skip_processed] as it was. *)
Definition refresh_settings : M W bool :=
  try_except
    (v <- call (load_config env) ;;
     set_skip_processed v ;;;
     ret v)
    (fun _ => ret false).

(** The skip decision made for an identified article, in both branches of
    [fetch_feed]: the pair [(skip_article, skip_reason)]. *)
Definition skip_check (article_id : str) (task_id : option str) : M W (bool * str) :=
  sp <- get_skip_processed ;;
  match task_id with
  | Some tid =>
    if sp && truthy tid then
      d <- call (is_article_discarded_for_task env article_id tid) ;;
      if d then ret (true, reason_discarded tid)
      else
        s <- call (is_article_sent_for_task env article_id tid) ;;
        if s then ret (true, reason_sent tid)
        else ret (false, [])
    else ret (false, [])
  | None => ret (false, [])
  end.

(** ** The chat-source branch *)

(** The identifier generated for a chat-source item. *)
Definition wechat_article_id (feed_url : str) (entry : WechatEntry) : result str :=
  let title := get_default (w_title entry) (lit "No Title") in
  let original_link := get_default (w_link entry) feed_url in
  let normalized_link := normalize_article_id env original_link in
  let id_string := normalized_link ++ lit "::" ++ title in
  result_bind (md5_hex id_string) (fun h => Ok (lit "wechat_" ++ h)).

(** One turn of the loop over the chat-source items. *)
Definition process_wechat_entry (feed_url : str) (task_id : option str)
    (entry : WechatEntry) (acc : list WechatEntry * nat)
  : M W (list WechatEntry * nat) :=
  let (processed_entries, skipped_count) := acc in
  let title := get_default (w_title entry) (lit "No Title") in
  let original_link := get_default (w_link entry) feed_url in
  article_id <- lift (wechat_article_id feed_url entry) ;;
  sk <- skip_check article_id task_id ;;
  if fst sk then ret (processed_entries, S skipped_count)
  else
    let content := get_default (w_content entry) [] in
    content_hash <-
      (if truthy content
       then lift (result_bind (md5_hex content) (fun h => Ok (Some h)))
       else ret None) ;;
    now <- ask (now_isoformat env) ;;
    call (add_news_article env
            (mkNewsArticle article_id title (Some original_link)
               (get_default (w_source entry) (lit "微信公众号"))
               (Some (get_default (w_published entry) now))
               content_hash)) ;;;
    let entry := mkWechatEntry (w_title entry) (w_link entry) (w_content entry)
                   (w_source entry) (w_published entry) (Some article_id) in
    ret (processed_entries ++ [entry], skipped_count).

(** [for entry in wechat_result["items"]: ...] *)
Fixpoint process_wechat_entries (feed_url : str) (task_id : option str)
    (entries : list WechatEntry) (acc : list WechatEntry * nat)
  : M W (list WechatEntry * nat) :=
  match entries with
  | [] => ret acc
  | entry :: rest =>
    acc' <- process_wechat_entry feed_url task_id entry acc ;;
    process_wechat_entries feed_url task_id rest acc'
  end.

Definition wechat_branch (feed_url : str) (items_count : Z) (task_id : option str)
  : M W FetchResult :=
  wechat_result <- call (parse_wechat_source env feed_url items_count) ;;
  match wr_status wechat_result with
  | None => raise (KeyError (lit "status"))
  | Some st =>
    if negb (Str.eqb st (lit "success")) then ret (wechat_result_as_is wechat_result)
    else
      match wr_items wechat_result with
      | None => raise (KeyError (lit "items"))
      | Some its =>
        let total_entries := length its in
        acc <- process_wechat_entries feed_url task_id its ([], O) ;;
        let (processed_entries, skipped_count) := acc in
        ret (success_result (map WechatItem processed_entries)
               (mkFeedInfo
                  match processed_entries with
                  | e :: _ => get_default (w_source e) (lit "微信公众号")
                  | [] => lit "未知"
                  end
                  (lit "微信公众号内容") feed_url)
               (mkStats total_entries (length processed_entries) skipped_count))
      end
  end.

(** ** The generic branch *)

(** [feed.feed.title] when both attributes exist. *)
Definition feed_title (feed : ParsedFeed) : option str :=
  match feed_feed feed with
  | Some m => meta_title m
  | None => None
  end.

(** The publication date of lines 337 to 349 for the time fields [t]: a
    naive [datetime], declared UTC, converted, in ISO format. *)
Definition local_isoformat (local_tz : Z) (t : struct_time) : result str :=
  result_bind (datetime_of_struct_time t) (fun pub_datetime =>
  let pub_datetime := replace_tzinfo pub_datetime UTC in
  result_bind (_convert_to_local_time local_tz (Some pub_datetime)) (fun r =>
  match r with
  | Some d => Ok (isoformat d)
  | None => Raise (AttributeError (lit "'NoneType' object has no attribute 'isoformat'"))
  end)).

Definition published_date_of (entry : Entry) : M W (option str) :=
  match entry_published_parsed entry with
  | Some t =>
    tz <- ask (local_utcoffset env) ;;
    d <- lift (local_isoformat tz t) ;; ret (Some d)
  | None =>
    match entry_updated_parsed entry with
    | Some t =>
      tz <- ask (local_utcoffset env) ;;
      d <- lift (local_isoformat tz t) ;; ret (Some d)
    | None => ret None
    end
  end.

(** One turn of the [while] loop, for the entry under the cursor. *)
Definition process_entry (feed : ParsedFeed) (feed_url : str) (task_id : option str)
    (entry : Entry) (acc : list ProcessedEntry * nat)
  : M W (list ProcessedEntry * nat) :=
  let (processed_entries, skipped_count) := acc in
  let original_article_id_source := entry_id entry in
  let original_link := entry_link entry in
  let base_id :=
    if truthy_opt original_article_id_source then original_article_id_source
    else original_link in
  match base_id with
  | None => ret (processed_entries, skipped_count)
  | Some base =>
    if negb (truthy base) then ret (processed_entries, skipped_count)
    else
      let article_id := normalize_article_id env base in
      sk <- skip_check article_id task_id ;;
      if fst sk then ret (processed_entries, S skipped_count)
      else
        published_date <- published_date_of entry ;;
        let title := get_default (entry_title entry) (lit "无标题") in
        let raw_summary := get_default (entry_summary entry) [] in
        cleaned_summary <- lift (_clean_html (soup_get_text env) raw_summary) ;;
        let raw_content :=
          match entry_content entry with
          | Some (c :: _) => c
          | _ => raw_summary
          end in
        cleaned_content <- lift (_clean_html (soup_get_text env) raw_content) ;;
        let source := get_default (feed_title feed) feed_url in
        let processed_entry :=
          mkProcessedEntry title original_link cleaned_summary published_date
                           source cleaned_content article_id feed_url in
        let processed_entries := processed_entries ++ [processed_entry] in
        let content_to_hash :=
          if truthy cleaned_content then cleaned_content else cleaned_summary in
        content_hash <-
          (if truthy content_to_hash
           then lift (result_bind (md5_hex content_to_hash) (fun h => Ok (Some h)))
           else ret None) ;;
        match entry_title entry with
        | None => raise (AttributeError (lit "object has no attribute 'title'"))
        | Some entry_title =>
          call (add_news_article env
                  (mkNewsArticle article_id entry_title original_link source
                                 published_date content_hash)) ;;;
          ret (processed_entries, skipped_count)
        end
  end.

(** [while len(processed_entries) < items_count and entry_index <
    total_entries: ...], on the entries from the cursor on. *)
Fixpoint process_entries (feed : ParsedFeed) (feed_url : str) (items_count : Z)
    (task_id : option str) (entries : list Entry) (acc : list ProcessedEntry * nat)
  : M W (list ProcessedEntry * nat) :=
  match entries with
  | [] => ret acc
  | entry :: rest =>
    if (Z.of_nat (length (fst acc)) <? items_count)%Z then
      acc' <- process_entry feed feed_url task_id entry acc ;;
      process_entries feed feed_url items_count task_id rest acc'
    else ret acc
  end.

Definition rss_branch (feed_url : str) (items_count : Z) (task_id : option str)
  : M W FetchResult :=
  feed <- call (feedparser_parse env feed_url) ;;
  if negb (feed_truthy feed) then ret (fail_result (lit "无效的Feed"))
  else
    match feed_entries feed with
    | None => ret (fail_result (lit "Feed结构无效"))
    | Some [] => ret (fail_result (lit "Feed为空"))
    | Some entries =>
      let total_entries := length entries in
      acc <- process_entries feed feed_url items_count task_id entries ([], O) ;;
      let (processed_entries, skipped_count) := acc in
      ret (success_result (map RssItem processed_entries)
             (mkFeedInfo
                (get_default (feed_title feed) (lit "未知"))
                (get_default match feed_feed feed with
                             | Some m => meta_description m
                             | None => None
                             end (lit "无描述"))
                (get_default match feed_feed feed with
                             | Some m => meta_link m
                             | None => None
                             end feed_url))
             (mkStats total_entries (length processed_entries) skipped_count))
    end.

(** ["WXS_" in feed_url or "weixin" in feed_url]. *)
Definition is_wechat_source (feed_url : str) : bool :=
  contains (lit "WXS_") feed_url || contains (lit "weixin") feed_url.

(** The body of the [try] statement of [fetch_feed]. *)
Definition fetch_feed_body (feed_url : str) (items_count : Z) (task_id : option str)
  : M W FetchResult :=
  refresh_settings ;;;
  if is_wechat_source feed_url
  then wechat_branch feed_url items_count task_id
  else rss_branch feed_url items_count task_id.

(** [fetch_feed(feed_url, items_count, task_id, recipients)]; the
    recipients are only logged. *)
Definition fetch_feed (feed_url : str) (items_count : Z) (task_id : option str)
  : M W FetchResult :=
  try_except
    (fetch_feed_body feed_url items_count task_id)
    (fun e => ret (fail_result (exc_str e))).

End RssParser.

(* ================================================================== *)
(** * An in-memory instance of the collaborators *)
(* ================================================================== *)

(** A small world to run the pipeline on concrete feeds: one configuration
    value, one feed document, one chat-source answer, a task history and
    an article table.  The article store ([news_db_manager.py]) and the
    chat-source parser ([wechat_parser.py]) are not part of the sources
    embedded here; their stand-ins follow the interface the specification
    gives them.  The markup parser is the reference one. *)
Module Scenario.

Record World : Type := mkWorld {
  config : result bool;
  document : result ParsedFeed;
  chat : result WechatResult;
  discarded : list (str * str);
  sent : list (str * str);
  articles : list NewsArticle;
  utcoffset : Z;
  clock : str
}.

(** Modelled from the spec: [is_discarded_for_task] and [is_sent_for_task]
    of the article store, a status per pair of article id and task id. *)
Definition recorded (history : list (str * str)) (article_id task_id : str) : bool :=
  existsb (fun p => Str.eqb (fst p) article_id && Str.eqb (snd p) task_id) history.

(** Modelled from the spec: [upsert_article] of the article store, an
    idempotent upsert keyed by [article_id]. *)
Definition upsert (a : NewsArticle) (w : World) : World :=
  mkWorld (config w) (document w) (chat w) (discarded w) (sent w)
    (filter (fun b => negb (Str.eqb (na_article_id b) (na_article_id a))) (articles w) ++ [a])
    (utcoffset w) (clock w).

(** Modelled from the spec: [canonicalize] of the article store, a
    deterministic and idempotent normalisation; here the removal of
    surrounding whitespace. *)
Definition canonicalize (raw_identity : str) : str := strip raw_identity.

(** Modelled from the spec: the collaborators, each answering from the
    world; the chat source returns its answer whatever count is asked. *)
Definition env : Collaborators World :=
  mkCollaborators
    (fun w => (config w, w))
    canonicalize
    (fun article_id task_id w => (Ok (recorded (discarded w) article_id task_id), w))
    (fun article_id task_id w => (Ok (recorded (sent w) article_id task_id), w))
    (fun a w => (Ok tt, upsert a w))
    (fun _ _ w => (chat w, w))
    (fun _ w => (document w, w))
    Soup.get_text
    utcoffset
    clock.

Definition entry (id title summary : string) : Entry :=
  mkEntry (Some (lit id)) (Some (lit id)) (Some (lit title)) None None
          (Some (lit summary)) None.

(** A feed of three entries, titled "News". *)
Definition three_entries : ParsedFeed :=
  mkParsedFeed true
    (Some [entry "http://example.org/1" "One" "<p>Hello <em>world</em></p>";
           entry "http://example.org/2" "Two" "<p>Second</p>";
           entry "http://example.org/3" "Three" "<p>Third</p>"])
    (Some (mkFeedMeta (Some (lit "News")) None None)).

Definition world_of (doc : result ParsedFeed) (sent_history : list (str * str)) : World :=
  mkWorld (Ok true) doc (Ok (mkWechatResult None None None)) [] sent_history []
          28800 (lit "2024-01-01T08:00:00").

Definition chat_world (answer : result WechatResult) : World :=
  mkWorld (Ok true) (Ok (mkParsedFeed false None None)) answer [] [] []
          28800 (lit "2024-01-01T08:00:00").

Definition chat_item (link title : string) : WechatEntry :=
  mkWechatEntry (Some (lit title)) (Some (lit link)) (Some (lit "text")) None None None.

Definition start (w : World) : State World := mkState false w.

(** The statistics of a result. *)
Definition counts (r : result FetchResult * State World) : option (nat * nat * nat) :=
  match fst r with
  | Ok f =>
    match stats f with
    | Some s => Some (total_available s, processed s, skipped s)
    | None => None
    end
  | Raise _ => None
  end.

End Scenario.

(* ================================================================== *)
(** * Properties of the string functions *)
(* ================================================================== *)

Module StrFacts.

Local Open Scope N_scope.

Lemma eqb_eq (a b : str) : Str.eqb a b = true <-> a = b.
Proof.
  revert b; induction a as [|x a IH]; intros [|y b]; simpl; split;
    try discriminate; try reflexivity.
  - intros H; apply andb_true_iff in H as [Hx Hab].
    apply N.eqb_eq in Hx; apply IH in Hab; now subst.
  - intros H; injection H as -> ->.
    rewrite N.eqb_refl; simpl; now apply IH.
Qed.

Lemma eqb_refl (a : str) : Str.eqb a a = true.
Proof. now apply eqb_eq. Qed.

Lemma startswith_iff (p s : str) :
  startswith p s = true <-> exists r, s = p ++ r.
Proof.
  revert s; induction p as [|x p IH]; intros s; simpl.
  - split; [intros _; now exists s | reflexivity].
  - destruct s as [|y s].
    + split; [discriminate | intros [r Hr]; discriminate].
    + rewrite andb_true_iff, N.eqb_eq, IH; split.
      * intros [-> [r ->]]; now exists r.
      * intros [r Hr]; injection Hr as -> ->; split; [reflexivity | now exists r].
Qed.

(** [p] occurs in [s]: some text [a], then [p], then some text [b]. *)
Definition occurs (p s : str) : Prop := exists a b, s = a ++ p ++ b.

Lemma contains_iff (p s : str) : contains p s = true <-> occurs p s.
Proof.
  unfold occurs; induction s as [|c s IH]; simpl.
  - rewrite orb_false_r, startswith_iff; split.
    + intros [r Hr]; now exists [], r.
    + intros [a [b H]]. destruct a; [now exists b|discriminate].
  - rewrite orb_true_iff, startswith_iff, IH; split.
    + intros [[r Hr] | [a [b H]]].
      * now exists [], r.
      * exists (c :: a), b; simpl; now rewrite H.
    + intros [[|x a] [b H]].
      * left; now exists b.
      * right; injection H as _ H; now exists a, b.
Qed.

End StrFacts.

(* ================================================================== *)
(** * Properties of [fetch_feed] *)
(* ================================================================== *)

Section Routing.

Variable W : Type.
Variable env : Collaborators W.

Import StrFacts.

(** C9. A source URL goes to the chat-source branch exactly when the text
    "WXS_" or the text "weixin" occurs in it; every other URL goes to the
    generic branch.  In both cases the settings are refreshed first. *)
Theorem fetch_feed_routing (feed_url : str) (items_count : Z) (task_id : option str) :
  (occurs (lit "WXS_") feed_url \/ occurs (lit "weixin") feed_url ->
   fetch_feed_body env feed_url items_count task_id
   = bind (refresh_settings env) (fun _ => wechat_branch env feed_url items_count task_id))
  /\
  (~ (occurs (lit "WXS_") feed_url \/ occurs (lit "weixin") feed_url) ->
   fetch_feed_body env feed_url items_count task_id
   = bind (refresh_settings env) (fun _ => rss_branch env feed_url items_count task_id)).
Proof.
  unfold fetch_feed_body, is_wechat_source.
  rewrite <- !contains_iff, <- orb_true_iff.
  destruct (contains (lit "WXS_") feed_url || contains (lit "weixin") feed_url).
  - split; [reflexivity | intros H; now elim H].
  - split; [discriminate | reflexivity].
Qed.

End Routing.

(** Instances: a URL that contains "weixin" and one that contains neither
    text. *)
Lemma fetch_feed_routing_witness :
  fetch_feed_body Scenario.env (lit "http://mp.weixin.qq.com/x") 1 None
  = bind (refresh_settings Scenario.env)
         (fun _ => wechat_branch Scenario.env (lit "http://mp.weixin.qq.com/x") 1 None)
  /\ fetch_feed_body Scenario.env (lit "http://example.org/rss") 1 None
     = bind (refresh_settings Scenario.env)
            (fun _ => rss_branch Scenario.env (lit "http://example.org/rss") 1 None).
Proof.
  split.
  - apply (proj1 (fetch_feed_routing Scenario.env (lit "http://mp.weixin.qq.com/x") 1 None)).
    right; exists (lit "http://mp."), (lit ".qq.com/x"); reflexivity.
  - apply (proj2 (fetch_feed_routing Scenario.env (lit "http://example.org/rss") 1 None)).
    intros [H | H]; apply StrFacts.contains_iff in H; discriminate H.
Defined.

Section Gate.

Variable W : Type.
Variable env : Collaborators W.

(** The state after a collaborator call that left the world [w]. *)
Definition after (st : State W) (w : W) : State W := mkState (skip_processed st) w.

(** The decision of the gate, written on the answers of the store. *)
Definition gate_outcome (article_id tid : str) (st : State W)
  : result (bool * str) * State W :=
  match is_article_discarded_for_task env article_id tid (world st) with
  | (Raise e, w1) => (Raise e, after st w1)
  | (Ok true, w1) => (Ok (true, reason_discarded tid), after st w1)
  | (Ok false, w1) =>
    match is_article_sent_for_task env article_id tid w1 with
    | (Raise e, w2) => (Raise e, after st w2)
    | (Ok true, w2) => (Ok (true, reason_sent tid), after st w2)
    | (Ok false, w2) => (Ok (false, []), after st w2)
    end
  end.

Lemma skip_check_disabled (article_id : str) (task_id : option str) (st : State W) :
  skip_processed st && truthy_opt task_id = false ->
  skip_check env article_id task_id st = (Ok (false, []), st).
Proof.
  intros H; unfold skip_check, bind, get_skip_processed.
  destruct task_id as [tid|]; [|reflexivity].
  simpl in H; now rewrite H.
Qed.

Lemma skip_check_enabled (article_id tid : str) (st : State W) :
  skip_processed st = true -> truthy tid = true ->
  skip_check env article_id (Some tid) st = gate_outcome article_id tid st.
Proof.
  destruct st as [sp w]; simpl; intros -> Ht.
  unfold skip_check, gate_outcome, bind, get_skip_processed, call, after, ret; cbn.
  rewrite Ht; cbn.
  destruct (is_article_discarded_for_task env article_id tid w) as [[[|]|e] w1];
    simpl; try reflexivity.
  destruct (is_article_sent_for_task env article_id tid w1) as [[[|]|e] w2]; reflexivity.
Qed.


(** When both answers would be true, the reason is the first one. *)
Lemma discarded_takes_precedence (article_id tid : str) (st : State W) (w1 : W) :
  skip_processed st = true -> truthy tid = true ->
  is_article_discarded_for_task env article_id tid (world st) = (Ok true, w1) ->
  skip_check env article_id (Some tid) st = (Ok (true, reason_discarded tid), after st w1).
Proof.
  intros Hs Ht Hd; rewrite skip_check_enabled by assumption.
  unfold gate_outcome; now rewrite Hd.
Qed.

End Gate.

(* ================================================================== *)
(** * Reasoning on computations *)
(* ================================================================== *)

Section Post.

Variable W : Type.

(** [post m Q]: every value [m] returns satisfies [Q]. *)
Definition post {A} (m : M W A) (Q : A -> Prop) : Prop :=
  forall st a st', m st = (Ok a, st') -> Q a.

Lemma post_ret {A} (a : A) (Q : A -> Prop) : Q a -> post (ret a) Q.
Proof. intros H st b st' E; injection E as <- _; exact H. Qed.

Lemma post_raise {A} (e : Exception) (Q : A -> Prop) : post (raise e) Q.
Proof. intros st b st' E; discriminate E. Qed.

Lemma post_bind {A B} (m : M W A) (k : A -> M W B) (P : A -> Prop) (Q : B -> Prop) :
  post m P -> (forall a, P a -> post (k a) Q) -> post (bind m k) Q.
Proof.
  intros Hm Hk st b st' E; unfold bind in E.
  destruct (m st) as [[a|e] st1] eqn:Em; [|discriminate].
  exact (Hk a (Hm _ _ _ Em) _ _ _ E).
Qed.

Lemma post_any {A} (m : M W A) : post m (fun _ => True).
Proof. intros st a st' _; exact I. Qed.

Lemma post_weaken {A} (m : M W A) (P Q : A -> Prop) :
  post m P -> (forall a, P a -> Q a) -> post m Q.
Proof. intros Hm H st a st' E; exact (H a (Hm _ _ _ E)). Qed.

Lemma post_lift {A} (r : result A) (Q : A -> Prop) :
  (forall a, r = Ok a -> Q a) -> post (lift r) Q.
Proof. intros H st a st' E; injection E as E _; exact (H a E). Qed.

Lemma bind_ret_l {A B} (a : A) (k : A -> M W B) (st : State W) :
  bind (ret a) k st = k a st.
Proof. reflexivity. Qed.

End Post.

(* ================================================================== *)
(** * The two loops *)
(* ================================================================== *)

Section Loops.

Variable W : Type.
Variable env : Collaborators W.

Lemma process_entry_no_identity feed feed_url task_id (e : Entry) acc :
  truthy_opt (entry_id e) = false -> truthy_opt (entry_link e) = false ->
  process_entry env feed feed_url task_id e acc = ret acc.
Proof.
  intros Hid Hlink; unfold process_entry; destruct acc as [p s].
  rewrite Hid.
  destruct (entry_link e) as [l|]; [|reflexivity].
  simpl in Hlink; now rewrite Hlink.
Qed.

(** C6. An entry with neither an id nor a link (absent or empty) leaves
    the loop as if it were not in the feed: whatever comes before and after
    it, the collected articles, the skipped counter and the outside world
    are those of the feed without the entry, and the loop goes on with the
    entry that follows. *)
Theorem entry_without_identity_ignored feed feed_url items_count task_id
    (pre post_ : list Entry) (e : Entry) acc (st : State W) :
  truthy_opt (entry_id e) = false -> truthy_opt (entry_link e) = false ->
  process_entries env feed feed_url items_count task_id (pre ++ e :: post_) acc st
  = process_entries env feed feed_url items_count task_id (pre ++ post_) acc st.
Proof.
  intros Hid Hlink; revert acc st; induction pre as [|a pre IH]; intros acc st; simpl.
  - rewrite (process_entry_no_identity feed feed_url task_id e acc Hid Hlink).
    destruct (Z.of_nat (length (fst acc)) <? items_count)%Z eqn:E.
    + reflexivity.
    + destruct post_ as [|b post_]; simpl; [reflexivity | now rewrite E].
  - destruct (Z.of_nat (length (fst acc)) <? items_count)%Z; [|reflexivity].
    unfold bind.
    destruct (process_entry env feed feed_url task_id a acc st) as [[acc'|x] st'];
      [apply IH | reflexivity].
Qed.

End Loops.

(** An instance: an entry with a title only, between two entries. *)
Lemma entry_without_identity_ignored_witness :
  let anonymous := mkEntry None None (Some (lit "Untitled")) None None None None in
  let feed := Scenario.three_entries in
  let st := Scenario.start (Scenario.world_of (Ok feed) []) in
  process_entries Scenario.env feed (lit "http://example.org/rss") 2 None
    ([Scenario.entry "http://example.org/1" "One" "<p>1</p>"]
       ++ anonymous :: [Scenario.entry "http://example.org/2" "Two" "<p>2</p>"]) ([], O) st
  = process_entries Scenario.env feed (lit "http://example.org/rss") 2 None
    ([Scenario.entry "http://example.org/1" "One" "<p>1</p>"]
       ++ [Scenario.entry "http://example.org/2" "Two" "<p>2</p>"]) ([], O) st.
Proof.
  intros anonymous feed st.
  apply (@entry_without_identity_ignored Scenario.World Scenario.env feed
           (lit "http://example.org/rss") 2 None
           [Scenario.entry "http://example.org/1" "One" "<p>1</p>"]
           [Scenario.entry "http://example.org/2" "Two" "<p>2</p>"]
           anonymous ([], O) st); reflexivity.
Defined.

Section Faults.

Variable W : Type.
Variable env : Collaborators W.

(** C7 (as the code has it). [fetch_feed] contains every fault of class
    [Exception]: what its body returns is returned; when the body raises a
    fault [e] that is an [Exception], the result has status "fail", no
    items and the message [str(e)] as its error, without the class name;
    a fault outside [Exception] (an interrupt, an exit request) is not
    caught by the handler and reaches the caller.  So a fault that leaves
    [fetch_feed] is never an [Exception]. *)
Theorem fetch_feed_contains_faults (feed_url : str) (items_count : Z)
    (task_id : option str) (st : State W) :
  match fetch_feed_body env feed_url items_count task_id st with
  | (Ok r0, st0) =>
    fetch_feed env feed_url items_count task_id st = (Ok r0, st0)
  | (Raise e, st0) =>
    if isinstance_Exception e then
      exists r,
        fetch_feed env feed_url items_count task_id st = (Ok r, st0)
        /\ status r = Some (lit "fail") /\ items r = Some []
        /\ error r = Some (exc_str e)
        /\ feed_info r = None /\ stats r = None
    else
      fetch_feed env feed_url items_count task_id st = (Raise e, st0)
  end
  /\ (forall e st',
        fetch_feed env feed_url items_count task_id st = (Raise e, st') ->
        isinstance_Exception e = false
        /\ fetch_feed_body env feed_url items_count task_id st = (Raise e, st')).
Proof.
  unfold fetch_feed, try_except.
  destruct (fetch_feed_body env feed_url items_count task_id st) as [[r0|e] st0].
  - split; [reflexivity | discriminate].
  - destruct (isinstance_Exception e) eqn:Ee; split.
    + exists (fail_result (exc_str e)); repeat split.
    + discriminate.
    + reflexivity.
    + intros e' st' E; injection E as <- <-; now split.
Qed.

End Faults.

(** C7, as stated, fails twice.  Two faults of different classes with the
    same message give the same result, so the result does not carry the
    class name; and an interrupt raised while the feed is read is not
    turned into a result: it leaves [fetch_feed]. *)
Lemma fault_class_not_in_result :
  let run e :=
    fst (fetch_feed Scenario.env (lit "http://example.org/rss") 10 None
           (Scenario.start (Scenario.world_of (Raise e) []))) in
  run (mkException (lit "ValueError") (lit "boom")) = Ok (fail_result (lit "boom"))
  /\ run (mkException (lit "RuntimeError") (lit "boom")) = Ok (fail_result (lit "boom"))
  /\ error (fail_result (lit "boom")) = Some (lit "boom")
  /\ lit "ValueError" <> lit "RuntimeError"
  /\ run (mkException (lit "KeyboardInterrupt") [])
     = Raise (mkException (lit "KeyboardInterrupt") []).
Proof.
  repeat split; discriminate.
Qed.

Section Counts.

Variable W : Type.
Variable env : Collaborators W.

Local Ltac step := eapply post_bind; [apply post_any | intros ? _].

Lemma process_entry_counts feed feed_url task_id (e : Entry) p s :
  post (process_entry env feed feed_url task_id e (p, s))
       (fun acc' => (length (fst acc') + snd acc' <= length p + s + 1
                     /\ length p <= length (fst acc') <= length p + 1
                     /\ s <= snd acc')%nat).
Proof.
  unfold process_entry.
  destruct (if truthy_opt (entry_id e) then entry_id e else entry_link e) as [base|];
    [|apply post_ret; simpl; lia].
  destruct (negb (truthy base)); [apply post_ret; simpl; lia|].
  step. destruct (fst a); [apply post_ret; simpl; lia|].
  do 4 step.
  destruct (entry_title e) as [t|]; [|apply post_raise].
  step. apply post_ret; simpl; rewrite length_app; simpl; lia.
Qed.

Lemma process_entries_counts feed feed_url items_count task_id (entries : list Entry) :
  forall p s,
  post (process_entries env feed feed_url items_count task_id entries (p, s))
       (fun acc' => (length (fst acc') + snd acc' <= length p + s + length entries)%nat
                    /\ (Z.of_nat (length (fst acc'))
                        <= Z.max items_count (Z.of_nat (length p)))%Z).
Proof.
  induction entries as [|e rest IH]; intros p s; simpl.
  - apply post_ret; simpl; lia.
  - destruct (Z.of_nat (length p) <? items_count)%Z eqn:E.
    + eapply post_bind; [apply process_entry_counts|].
      intros [p' s'] (H1 & H2 & H3); simpl in *.
      eapply post_weaken; [apply IH|].
      intros [p'' s''] (H4 & H5); simpl in *.
      apply Z.ltb_lt in E; lia.
    + apply post_ret; simpl; lia.
Qed.

Lemma process_wechat_entry_counts feed_url task_id (e : WechatEntry) p s :
  post (process_wechat_entry env feed_url task_id e (p, s))
       (fun acc' => (length (fst acc') + snd acc' = length p + s + 1)%nat).
Proof.
  unfold process_wechat_entry.
  do 2 step. destruct (fst a0); [apply post_ret; simpl; lia|].
  do 3 step.
  apply post_ret; simpl; rewrite length_app; simpl; lia.
Qed.

Lemma process_wechat_entries_counts feed_url task_id (entries : list WechatEntry) :
  forall p s,
  post (process_wechat_entries env feed_url task_id entries (p, s))
       (fun acc' => (length (fst acc') + snd acc' = length p + s + length entries)%nat).
Proof.
  induction entries as [|e rest IH]; intros p s; simpl.
  - apply post_ret; simpl; lia.
  - eapply post_bind; [apply process_wechat_entry_counts|].
    intros [p' s'] H1; simpl in *.
    eapply post_weaken; [apply IH|].
    intros [p'' s''] H2; simpl in *; lia.
Qed.

(** What a successful result states about its counters. *)
Definition counters_ok (generic : bool) (items_count : Z) (r : FetchResult) : Prop :=
  exists its info sts,
    r = success_result its info sts
    /\ processed sts = length its
    /\ (processed sts + skipped sts <= total_available sts)%nat
    /\ (generic = true -> (0 <= items_count)%Z ->
        (Z.of_nat (processed sts) <= items_count)%Z)
    /\ (generic = false ->
        (processed sts + skipped sts = total_available sts)%nat).

Lemma not_success_fail (msg : str) : is_success (fail_result msg) = false.
Proof. reflexivity. Qed.

Lemma rss_branch_counts feed_url items_count task_id :
  post (rss_branch env feed_url items_count task_id)
       (fun r => is_success r = true -> counters_ok true items_count r).
Proof.
  unfold rss_branch.
  step. destruct (negb (feed_truthy a)); [apply post_ret; discriminate|].
  destruct (feed_entries a) as [[|e rest]|]; try (apply post_ret; discriminate).
  eapply post_bind; [apply process_entries_counts|].
  intros [p s] (H1 & H2); simpl in H1, H2.
  apply post_ret; intros _.
  eexists _, _, _; split; [reflexivity|]; simpl.
  rewrite length_map; repeat split; try lia; discriminate.
Qed.

Lemma wechat_branch_counts feed_url items_count task_id :
  post (wechat_branch env feed_url items_count task_id)
       (fun r => is_success r = true -> counters_ok false items_count r).
Proof.
  unfold wechat_branch.
  step. destruct (wr_status a) as [st|] eqn:Est; [|apply post_raise].
  destruct (negb (Str.eqb st (lit "success"))) eqn:E.
  - apply post_ret; unfold is_success, wechat_result_as_is; simpl; rewrite Est.
    apply negb_true_iff in E; rewrite E; discriminate.
  - destruct (wr_items a) as [its|]; [|apply post_raise].
    eapply post_bind; [apply process_wechat_entries_counts|].
    intros [p s] H1; simpl in H1.
    apply post_ret; intros _.
    eexists _, _, _; split; [reflexivity|]; simpl.
    rewrite length_map; repeat split; try lia; discriminate.
Qed.

(** C2 (as the code has it). Every successful result has
    [processed == len(items)] and [processed + skipped <= total_available].
    In the generic branch [processed <= items_count] whenever [items_count]
    is not negative.  In the chat-source branch every item the chat source
    returned is either kept or skipped, [processed + skipped ==
    total_available], and nothing bounds [processed] by [items_count]. *)
Theorem successful_result_counters (feed_url : str) (items_count : Z)
    (task_id : option str) (st st' : State W) (r : FetchResult) :
  fetch_feed env feed_url items_count task_id st = (Ok r, st') ->
  is_success r = true ->
  counters_ok (negb (is_wechat_source feed_url)) items_count r.
Proof.
  assert (Hbody : post (fetch_feed_body env feed_url items_count task_id)
            (fun r => is_success r = true ->
                      counters_ok (negb (is_wechat_source feed_url)) items_count r)).
  { unfold fetch_feed_body; step.
    destruct (is_wechat_source feed_url);
      [apply wechat_branch_counts | apply rss_branch_counts]. }
  unfold fetch_feed, try_except; intros E Hs.
  destruct (fetch_feed_body env feed_url items_count task_id st) as [[r0|e] st0] eqn:Eb.
  - injection E as -> ->; exact (Hbody _ _ _ Eb Hs).
  - destruct (isinstance_Exception e); [|discriminate E].
    injection E as <- _; discriminate Hs.
Qed.

End Counts.

(** The result of a run of the in-memory instance (a failure result when
    the run raises). *)
Definition outcome (out : result FetchResult * State Scenario.World) : FetchResult :=
  match fst out with
  | Ok r => r
  | Raise e => fail_result (exc_str e)
  end.

(** An instance: three entries, two wanted. *)
Lemma successful_result_counters_witness :
  let st := Scenario.start (Scenario.world_of (Ok Scenario.three_entries) []) in
  let out := fetch_feed Scenario.env (lit "http://example.org/rss") 2 None st in
  counters_ok true 2 (outcome out).
Proof.
  intros st out.
  apply (@successful_result_counters Scenario.World Scenario.env
           (lit "http://example.org/rss") 2 None st (snd out) (outcome out));
    vm_compute; reflexivity.
Defined.

(** C2, as stated, fails in the chat-source branch: asked for one item, a
    chat source that answers with two makes [processed] two. *)
Lemma chat_branch_exceeds_items_count :
  let answer :=
    mkWechatResult (Some (lit "success"))
      (Some [Scenario.chat_item "http://mp.weixin.qq.com/s/1" "A";
             Scenario.chat_item "http://mp.weixin.qq.com/s/2" "B"]) None in
  let out := fetch_feed Scenario.env (lit "http://mp.weixin.qq.com/x") 1 None
               (Scenario.start (Scenario.chat_world (Ok answer))) in
  exists r,
    fst out = Ok r /\ is_success r = true
    /\ option_map processed (stats r) = Some 2%nat
    /\ option_map (@length Item) (items r) = Some 2%nat
    /\ ~ (Z.of_nat 2 <= 1)%Z.
Proof.
  intros answer out; exists (outcome out).
  repeat split; try (vm_compute; reflexivity).
  intros H; vm_compute in H; now apply H.
Qed.

Section Identity.

Variable W : Type.
Variable env : Collaborators W.

(** The identifier of a chat-source item: "wechat_" followed by the MD5
    digest, in hexadecimal, of the UTF-8 bytes of the canonical link, "::"
    and the title; the link defaults to the feed URL and the title to
    "No Title". *)
Definition has_wechat_id (feed_url : str) (w : WechatEntry) : Prop :=
  exists bs,
    encode_utf8 (normalize_article_id env (get_default (w_link w) feed_url)
                 ++ lit "::" ++ get_default (w_title w) (lit "No Title")) = Ok bs
    /\ w_article_id w = Some (lit "wechat_" ++ Hashlib.md5_hexdigest bs).

Local Ltac step := eapply post_bind; [apply post_any | intros ? _].

Lemma wechat_article_id_spec feed_url (e : WechatEntry) (aid : str) :
  wechat_article_id env feed_url e = Ok aid ->
  has_wechat_id feed_url
    (mkWechatEntry (w_title e) (w_link e) (w_content e) (w_source e) (w_published e)
                   (Some aid)).
Proof.
  unfold wechat_article_id, md5_hex, has_wechat_id; simpl.
  destruct (encode_utf8 _) as [bs|x]; simpl; [|discriminate].
  intros H; injection H as <-; now exists bs.
Qed.

Lemma process_wechat_entry_ids feed_url task_id (e : WechatEntry) p s :
  Forall (has_wechat_id feed_url) p ->
  post (process_wechat_entry env feed_url task_id e (p, s))
       (fun acc' => Forall (has_wechat_id feed_url) (fst acc')).
Proof.
  intros Hp; unfold process_wechat_entry.
  eapply post_bind; [apply post_lift; intros a Ha; exact Ha|].
  intros aid Haid; simpl in Haid.
  step. destruct (fst a); [now apply post_ret|].
  do 3 step.
  apply post_ret; simpl; apply Forall_app; split; [exact Hp|].
  constructor; [now apply wechat_article_id_spec | constructor].
Qed.

Lemma process_wechat_entries_ids feed_url task_id (entries : list WechatEntry) :
  forall p s,
  Forall (has_wechat_id feed_url) p ->
  post (process_wechat_entries env feed_url task_id entries (p, s))
       (fun acc' => Forall (has_wechat_id feed_url) (fst acc')).
Proof.
  induction entries as [|e rest IH]; intros p s Hp; simpl.
  - now apply post_ret.
  - eapply post_bind; [now apply process_wechat_entry_ids|].
    intros [p' s'] Hp'; now apply IH.
Qed.

Lemma wechat_branch_ids feed_url items_count task_id :
  post (wechat_branch env feed_url items_count task_id)
       (fun r => is_success r = true ->
                 exists ws, items r = Some (map WechatItem ws)
                            /\ Forall (has_wechat_id feed_url) ws).
Proof.
  unfold wechat_branch.
  step. destruct (wr_status a) as [st|] eqn:Est; [|apply post_raise].
  destruct (negb (Str.eqb st (lit "success"))) eqn:E.
  - apply post_ret; unfold is_success, wechat_result_as_is; simpl; rewrite Est.
    apply negb_true_iff in E; rewrite E; discriminate.
  - destruct (wr_items a) as [its|]; [|apply post_raise].
    eapply post_bind; [apply process_wechat_entries_ids; constructor|].
    intros [p s] Hp; simpl in Hp.
    apply post_ret; intros _; now exists p.
Qed.

(** C1 (as the code has it). Every item of a successful chat-source result
    carries [article_id = "wechat_" + md5(canonicalize(L) + "::" + T)], the
    hexadecimal MD5 digest of the UTF-8 bytes, where [L] is the item's link
    (the feed URL when it has none) and [T] its title ("No Title" when it
    has none); and the identifier is a function of [L] and [T] alone, so
    repeated runs on the same link and title give the same identifier. *)
Theorem wechat_items_article_id (feed_url : str) (items_count : Z)
    (task_id : option str) (st st' : State W) (r : FetchResult) :
  is_wechat_source feed_url = true ->
  fetch_feed env feed_url items_count task_id st = (Ok r, st') ->
  is_success r = true ->
  (exists ws, items r = Some (map WechatItem ws)
              /\ Forall (has_wechat_id feed_url) ws)
  /\ (forall e1 e2 : WechatEntry,
        w_link e1 = w_link e2 -> w_title e1 = w_title e2 ->
        wechat_article_id env feed_url e1 = wechat_article_id env feed_url e2).
Proof.
  intros Hw E Hs; split.
  - assert (Hbody : post (fetch_feed_body env feed_url items_count task_id)
              (fun r => is_success r = true ->
                        exists ws, items r = Some (map WechatItem ws)
                                   /\ Forall (has_wechat_id feed_url) ws)).
    { unfold fetch_feed_body; step. rewrite Hw; apply wechat_branch_ids. }
    unfold fetch_feed, try_except in E.
    destruct (fetch_feed_body env feed_url items_count task_id st) as [[r0|e] st0] eqn:Eb.
    + injection E as -> ->; exact (Hbody _ _ _ Eb Hs).
    + destruct (isinstance_Exception e); [|discriminate E].
      injection E as <- _; discriminate Hs.
  - intros e1 e2 Hl Ht; unfold wechat_article_id; now rewrite Hl, Ht.
Qed.

End Identity.

(** An instance: a chat source that answers with one item. *)
Lemma wechat_items_article_id_witness :
  let url := lit "http://mp.weixin.qq.com/x" in
  let answer :=
    mkWechatResult (Some (lit "success"))
      (Some [Scenario.chat_item "http://mp.weixin.qq.com/s/1" "A"]) None in
  let st := Scenario.start (Scenario.chat_world (Ok answer)) in
  let out := fetch_feed Scenario.env url 1 (Some (lit "T")) st in
  (exists ws, items (outcome out) = Some (map WechatItem ws)
              /\ Forall (has_wechat_id Scenario.env url) ws)
  /\ (forall e1 e2 : WechatEntry,
        w_link e1 = w_link e2 -> w_title e1 = w_title e2 ->
        wechat_article_id Scenario.env url e1 = wechat_article_id Scenario.env url e2).
Proof.
  intros url answer st out.
  apply (@wechat_items_article_id Scenario.World Scenario.env url 1 (Some (lit "T"))
           st (snd out) (outcome out)); vm_compute; reflexivity.
Defined.

(** C1, as stated, fails on the prefix: for the link
    "http://mp.weixin.qq.com/s/1" and the title "A" the pipeline assigns
    "wechat_" followed by the digest, not "chat_" followed by the digest. *)
Lemma wechat_prefix_is_not_chat :
  let answer :=
    mkWechatResult (Some (lit "success"))
      (Some [Scenario.chat_item "http://mp.weixin.qq.com/s/1" "A"]) None in
  let out := fetch_feed Scenario.env (lit "http://mp.weixin.qq.com/x") 1 None
               (Scenario.start (Scenario.chat_world (Ok answer))) in
  let digest := lit "01c53fff7086835e9113bea3ab88f0a4" in
  md5_hex (Scenario.env.(normalize_article_id) (lit "http://mp.weixin.qq.com/s/1")
           ++ lit "::" ++ lit "A") = Ok digest
  /\ option_map (map item_article_id) (items (outcome out))
     = Some [Some (lit "wechat_" ++ digest)]
  /\ lit "wechat_" ++ digest <> lit "chat_" ++ digest.
Proof.
  repeat split; discriminate.
Qed.

Section WithinRun.

Variable W : Type.
Variable env : Collaborators W.

(** The outcome of a turn started from nothing, placed after the articles
    [p] collected and the [s] articles skipped so far. *)
Definition after_collected (p : list ProcessedEntry) (s : nat)
    (out : result (list ProcessedEntry * nat) * State W)
  : result (list ProcessedEntry * nat) * State W :=
  match out with
  | (Ok (p', s'), st') => (Ok (p ++ p', (s + s')%nat), st')
  | (Raise e, st') => (Raise e, st')
  end.

(** A turn of the loop does not look at the articles collected so far:
    what it appends, whether it skips, and what it asks of the store are
    the same after any collected articles as after none. *)
Lemma process_entry_ignores_collected feed feed_url task_id (e : Entry) p s st :
  process_entry env feed feed_url task_id e (p, s) st
  = after_collected p s (process_entry env feed feed_url task_id e ([], O) st).
Proof.
  unfold process_entry, after_collected.
  destruct (if truthy_opt (entry_id e) then entry_id e else entry_link e) as [base|];
    [|unfold ret; now rewrite app_nil_r, Nat.add_0_r].
  destruct (negb (truthy base)); [unfold ret; now rewrite app_nil_r, Nat.add_0_r|].
  unfold bind.
  destruct (skip_check env _ task_id st) as [[sk|x] st1]; [|reflexivity].
  destruct (fst sk); [unfold ret; now rewrite app_nil_r, Nat.add_1_r|].
  destruct (published_date_of env e st1) as [[d|x] st2]; [|reflexivity].
  destruct (lift _ st2) as [[cs|x] st3]; [|reflexivity].
  destruct (lift _ st3) as [[cc|x] st4]; [|reflexivity].
  match goal with |- context [(if ?c then ?a else ?b) st4] =>
    destruct ((if c then a else b) st4) as [[h|x] st5] end; [|reflexivity].
  destruct (entry_title e) as [t|]; [|reflexivity].
  destruct (call _ st5) as [[u|x] st6]; [|reflexivity].
  unfold ret; simpl; now rewrite Nat.add_0_r.
Qed.

End WithinRun.

(** C10. There is no deduplication within a run.  A turn of the loop never
    consults the articles already collected; and for the feed of two
    entries whose ids " http://example.org/1 " and "http://example.org/1"
    normalise to the same [article_id], fetched for a task whose history is
    empty with deduplication enabled, both entries are in [items] with the
    same [article_id] and [processed] is 2. *)
Theorem no_within_run_deduplication :
  (forall W (env : Collaborators W) feed feed_url task_id e p s st,
     process_entry env feed feed_url task_id e (p, s) st
     = after_collected p s (process_entry env feed feed_url task_id e ([], O) st))
  /\
  (let feed :=
     mkParsedFeed true
       (Some [Scenario.entry " http://example.org/1 " "One" "<p>first</p>";
              Scenario.entry "http://example.org/1" "One again" "<p>second</p>"])
       None in
   let st := Scenario.start (Scenario.world_of (Ok feed) []) in
   let out := fetch_feed Scenario.env (lit "http://example.org/rss") 10
                (Some (lit "T")) st in
   skip_processed (snd out) = true
   /\ option_map (map item_article_id) (items (outcome out))
      = Some [Some (lit "http://example.org/1"); Some (lit "http://example.org/1")]
   /\ stats (outcome out) = Some (mkStats 2 2 0)).
Proof.
  split.
  - intros; apply process_entry_ignores_collected.
  - repeat split; vm_compute; reflexivity.
Qed.

(* ================================================================== *)
(** * Properties of [_clean_html] *)
(* ================================================================== *)

Unset Implicit Arguments.

Module CleanFacts.

Local Open Scope N_scope.

Lemma linebreak_isspace (c : N) : is_linebreak c = true -> isspace c = true.
Proof.
  unfold is_linebreak, isspace.
  rewrite !orb_true_iff, !andb_true_iff, !N.leb_le, !N.eqb_eq; lia.
Qed.

Definition nobreak (c : N) : Prop := is_linebreak c = false.

(** ** Stripping *)

Lemma lstrip_head (s : str) :
  lstrip s = [] \/ exists c r, lstrip s = c :: r /\ isspace c = false.
Proof.
  induction s as [|c s IH]; simpl; [now left|].
  destruct (isspace c) eqn:E; [exact IH | right; now exists c, s].
Qed.

Lemma rstrip_cons_keep (c : N) (s : str) :
  isspace c = false -> rstrip (c :: s) = c :: rstrip s.
Proof. intros H; simpl; rewrite H; now destruct (rstrip s). Qed.

Lemma rstrip_idem (s : str) : rstrip (rstrip s) = rstrip s.
Proof.
  induction s as [|c s IH]; simpl; [reflexivity|].
  destruct (rstrip s) as [|x r] eqn:E.
  - destruct (isspace c) eqn:Ec; simpl; [reflexivity | now rewrite Ec].
  - change (rstrip (c :: x :: r) = c :: x :: r).
    simpl; simpl in IH; rewrite IH; reflexivity.
Qed.

Lemma rstrip_fixed_cons (c : N) (s : str) :
  rstrip (c :: s) = c :: s -> rstrip s = s /\ (s <> [] \/ isspace c = false).
Proof.
  simpl; destruct (rstrip s) as [|x r] eqn:E.
  - destruct (isspace c) eqn:Ec; [discriminate|].
    intros H; injection H as <-; split; [reflexivity | now right].
  - intros H; injection H as <-; split; [reflexivity | left; discriminate].
Qed.

(** ** Whitespace runs *)

Lemma sub_ws_from_fixed (s : str) :
  forall b b', (b' = true -> b = true) ->
  Re.sub_ws_from b' (Re.sub_ws_from b s) = Re.sub_ws_from b s.
Proof.
  induction s as [|c s IH]; intros b b' Hb; simpl; [reflexivity|].
  destruct (isspace c) eqn:Ec.
  - destruct b.
    + now apply IH.
    + destruct b'; [now discriminate Hb|].
      simpl; f_equal; now apply IH.
  - simpl; rewrite Ec; f_equal; now apply IH.
Qed.

Lemma sub_ws_from_spaces (s : str) :
  forall b, Forall (fun c => isspace c = true -> c = 0x20) (Re.sub_ws_from b s).
Proof.
  induction s as [|c s IH]; intros b; simpl; [constructor|].
  destruct (isspace c) eqn:Ec.
  - destruct b; [apply IH | constructor; [reflexivity | apply IH]].
  - constructor; [rewrite Ec; discriminate | apply IH].
Qed.

Lemma sub_ws_from_nobreak (s : str) (b : bool) : Forall nobreak (Re.sub_ws_from b s).
Proof.
  eapply Forall_impl; [|apply sub_ws_from_spaces].
  intros c Hc; unfold nobreak.
  destruct (is_linebreak c) eqn:E; [|reflexivity].
  rewrite (Hc (linebreak_isspace c E)) in E; discriminate E.
Qed.

Lemma sub_ws_from_nonempty (s : str) :
  forall b, rstrip s = s -> s <> [] -> Re.sub_ws_from b s <> [].
Proof.
  induction s as [|c s IH]; intros b Hr Hne; [now elim Hne|].
  apply rstrip_fixed_cons in Hr as [Hs Hc]; simpl.
  destruct (isspace c) eqn:Ec; [|discriminate].
  destruct Hc as [Hc|Hc]; [|discriminate].
  destruct b; [now apply IH | discriminate].
Qed.

Lemma rstrip_sub_ws_from (s : str) :
  forall b, rstrip s = s -> rstrip (Re.sub_ws_from b s) = Re.sub_ws_from b s.
Proof.
  induction s as [|c s IH]; intros b Hr; [reflexivity|].
  apply rstrip_fixed_cons in Hr as [Hs Hc]; simpl.
  destruct (isspace c) eqn:Ec.
  - destruct Hc as [Hc|Hc]; [|discriminate].
    destruct b; [now apply IH|].
    pose proof (sub_ws_from_nonempty s true Hs Hc) as Hne.
    simpl; rewrite (IH true Hs).
    destruct (Re.sub_ws_from true s); [now elim Hne | reflexivity].
  - rewrite rstrip_cons_keep by exact Ec; f_equal; now apply IH.
Qed.

(** ** Lines *)

(** A line as the loop of [_clean_html] leaves it: not empty, stripped,
    with single spaces as its only whitespace. *)
Definition clean_line (l : str) : Prop :=
  truthy l = true /\ strip l = l /\ Re.sub_ws l = l /\ Forall nobreak l.

Lemma clean_line_sub_ws_strip (line : str) :
  truthy (strip line) = true -> clean_line (Re.sub_ws (strip line)).
Proof.
  unfold strip; intros Ht.
  destruct (lstrip_head line) as [E | (c & r & E & Hc)]; rewrite E in *; [discriminate Ht|].
  assert (Hr : rstrip (rstrip (c :: r)) = rstrip (c :: r)) by apply rstrip_idem.
  rewrite (rstrip_cons_keep c r Hc) in *.
  unfold clean_line, Re.sub_ws, strip; simpl; rewrite Hc; repeat split.
  - cbn [lstrip]; rewrite Hc, rstrip_cons_keep by exact Hc; f_equal.
    assert (H := rstrip_sub_ws_from _ false Hr); simpl in H; rewrite Hc in H.
    rewrite rstrip_cons_keep in H by exact Hc; now injection H.
  - cbn [Re.sub_ws_from]; rewrite Hc; f_equal; now apply sub_ws_from_fixed.
  - constructor; [|apply sub_ws_from_nobreak].
    unfold nobreak; destruct (is_linebreak c) eqn:El; [|reflexivity].
    apply linebreak_isspace in El; congruence.
Qed.

Lemma processed_lines_clean (lines : list str) : Forall clean_line (processed_lines lines).
Proof.
  induction lines as [|line rest IH]; simpl; [constructor|].
  destruct (truthy (strip line)) eqn:E; [|exact IH].
  constructor; [now apply clean_line_sub_ws_strip | exact IH].
Qed.

Lemma splitlines_line_feed (s : str) : splitlines (0x0A :: s) = [] :: splitlines s.
Proof. simpl; now destruct s. Qed.

Lemma splitlines_nobreak_app (l rest : str) :
  Forall nobreak l -> splitlines (l ++ 0x0A :: rest) = l :: splitlines rest.
Proof.
  induction 1 as [|c l Hc Hl IH]; [apply splitlines_line_feed|].
  change (splitlines (c :: (l ++ 0x0A :: rest)) = (c :: l) :: splitlines rest).
  cbn [splitlines]; rewrite Hc.
  fold (splitlines (l ++ 0x0A :: rest)); now rewrite IH.
Qed.

Lemma splitlines_nobreak (l : str) :
  Forall nobreak l -> l <> [] -> splitlines l = [l].
Proof.
  induction 1 as [|c l Hc Hl IH]; intros Hne; [now elim Hne|].
  cbn [splitlines]; rewrite Hc; fold (splitlines l).
  destruct l as [|d l]; [reflexivity|].
  rewrite IH by discriminate; reflexivity.
Qed.

Definition paragraph_break : str := [0x0A; 0x0A].

(** The lines of a text assembled from clean lines are those lines. *)
Lemma processed_lines_join (ls : list str) :
  Forall clean_line ls ->
  processed_lines (splitlines (join paragraph_break ls)) = ls.
Proof.
  induction 1 as [|l ls (Ht & Hs & Hw & Hb) Hls IH]; [reflexivity|].
  destruct ls as [|l2 rest].
  - simpl; rewrite splitlines_nobreak; [|exact Hb | intros ->; discriminate Ht].
    simpl; rewrite Hs, Ht, Hw; reflexivity.
  - change (join paragraph_break (l :: l2 :: rest))
      with (l ++ 0x0A :: 0x0A :: join paragraph_break (l2 :: rest)).
    rewrite splitlines_nobreak_app by exact Hb.
    rewrite splitlines_line_feed.
    cbn [processed_lines]; rewrite Hs, Ht, Hw.
    change (strip []) with (@nil N); cbn [truthy].
    f_equal; exact IH.
Qed.

(** The text normalisation at the end of [_clean_html]. *)
Definition paragraphs (raw_text : str) : str :=
  join paragraph_break (processed_lines (splitlines raw_text)).

Lemma paragraphs_idempotent (raw_text : str) :
  paragraphs (paragraphs raw_text) = paragraphs raw_text.
Proof.
  unfold paragraphs; rewrite processed_lines_join; [reflexivity|].
  apply processed_lines_clean.
Qed.

End CleanFacts.

Section SanitizerProperties.

Import CleanFacts.

(** Any markup parser: it may return any text and may raise. *)
Variable soup : str -> result str.

(** [_clean_html] never raises a fault of class [Exception]: it returns a
    text, or lets through a fault outside [Exception] that the parser
    raised. *)
Lemma clean_html_contains_faults (html_content : str) :
  match _clean_html soup html_content with
  | Ok _ => True
  | Raise e =>
    isinstance_Exception e = false /\ soup (Re.sub_em html_content) = Raise e
  end.
Proof.
  unfold _clean_html.
  destruct (negb (truthy html_content)); [exact I|].
  destruct (soup (Re.sub_em html_content)) as [raw|e]; simpl; [exact I|].
  destruct (isinstance_Exception e) eqn:Ee; [exact I | now split].
Qed.

(** With a parser whose faults on the input are of class [Exception],
    [_clean_html] returns a text. *)
Lemma clean_html_total (html_content : str) :
  (forall e, soup (Re.sub_em html_content) = Raise e ->
             isinstance_Exception e = true) ->
  exists text, _clean_html soup html_content = Ok text.
Proof.
  intros Hc; unfold _clean_html.
  destruct (negb (truthy html_content)); [now exists []|].
  destruct (soup (Re.sub_em html_content)) as [raw|e]; simpl; [eauto|].
  rewrite (Hc e eq_refl); eauto.
Qed.

(** Empty input gives the empty text whatever the parser would do. *)
Lemma clean_html_empty : _clean_html soup [] = Ok [].
Proof. reflexivity. Qed.

(** What [_clean_html] returns when the parser accepts the input. *)
Lemma clean_html_parsed (html_content raw_text : str) :
  truthy html_content = true ->
  soup (Re.sub_em html_content) = Ok raw_text ->
  _clean_html soup html_content = Ok (paragraphs raw_text).
Proof.
  intros Ht Hp; unfold _clean_html; rewrite Ht, Hp; reflexivity.
Qed.

(** C4, the defect. When the parser raises on a non-empty input a fault
    the handler catches, [_clean_html] returns the text left by the
    emphasis pre-pass: the pre-pass rebinds [html_content] before the
    [try] body can fail, so the handler, meant to return the original
    content, returns the input with its [em] tags already removed.  (A
    fault outside [Exception] is not caught and is raised again.) *)
Theorem clean_html_fault_returns_prepassed_text (html_content : str) (e : Exception) :
  truthy html_content = true ->
  soup (Re.sub_em html_content) = Raise e ->
  _clean_html soup html_content =
    if isinstance_Exception e then Ok (Re.sub_em html_content) else Raise e.
Proof.
  intros Ht Hp; unfold _clean_html; rewrite Ht, Hp; reflexivity.
Qed.

(** C8 (as the code has it). Sanitizing is idempotent on an input the
    parser accepts whenever the parser reads the sanitized text back as it
    is, which is the case of a text without markup or character
    references. *)
Theorem clean_html_idempotent_on_plain_text (x raw y : str) :
  soup (Re.sub_em x) = Ok raw ->
  _clean_html soup x = Ok y ->
  (truthy y = true -> soup (Re.sub_em y) = Ok y) ->
  _clean_html soup y = Ok y.
Proof.
  intros Hx Hy Hback.
  destruct (truthy x) eqn:Ex.
  - rewrite (clean_html_parsed x raw Ex Hx) in Hy; injection Hy as <-.
    destruct (truthy (paragraphs raw)) eqn:Ey.
    + rewrite (clean_html_parsed _ _ Ey (Hback eq_refl)).
      now rewrite paragraphs_idempotent.
    + destruct (paragraphs raw); [reflexivity | discriminate Ey].
  - destruct x; [|discriminate Ex].
    now injection Hy as <-.
Qed.

End SanitizerProperties.

(** An instance: an emphasised word followed by a marked section the
    parser rejects; the text returned is not the input. *)
Lemma clean_html_fault_returns_prepassed_text_witness :
  _clean_html Soup.get_text (lit "<em>a</em><![x[y]]>") = Ok (lit "a<![x[y]]>")
  /\ lit "a<![x[y]]>" <> lit "<em>a</em><![x[y]]>".
Proof.
  split.
  - exact (clean_html_fault_returns_prepassed_text Soup.get_text
             (lit "<em>a</em><![x[y]]>") (Soup.ParserRejectedMarkup (lit "x"))
             eq_refl eq_refl).
  - discriminate.
Defined.

(** An instance: the sanitized text of scenario C, sanitized again. *)
Lemma clean_html_idempotent_on_plain_text_witness :
  _clean_html Soup.get_text (lit "Hello world") = Ok (lit "Hello world").
Proof.
  exact (clean_html_idempotent_on_plain_text Soup.get_text
           (lit "<p>Hello <em>world</em></p>") (lit "Hello world") (lit "Hello world")
           eq_refl eq_refl (fun _ => eq_refl)).
Defined.

(** C8, as stated, fails: escaped markup becomes markup after one pass and
    is removed by the second. *)
Lemma clean_html_not_idempotent :
  _clean_html Soup.get_text (lit "&lt;b&gt;x&lt;/b&gt;") = Ok (lit "<b>x</b>")
  /\ _clean_html Soup.get_text (lit "<b>x</b>") = Ok (lit "x")
  /\ lit "<b>x</b>" <> lit "x".
Proof.
  repeat split; discriminate.
Qed.

(** Scenario C of the specification. *)
Lemma clean_html_hello_world :
  _clean_html Soup.get_text (lit "<p>Hello <em>world</em></p>") = Ok (lit "Hello world").
Proof. reflexivity. Qed.

(* ================================================================== *)
(** * Properties of the calendar arithmetic *)
(* ================================================================== *)

Module DatetimeFacts.

Local Open Scope Z_scope.

(** [_ord2ymd] after its first division: [k] whole 400-year cycles and
    [r] days into the next one. *)
Definition ord2ymd_cycle (k r : Z) : Z * Z * Z :=
  let n := r in
  let y := k * 400 + 1 in
  let n100 := n / _DI100Y in let n := n mod _DI100Y in
  let n4 := n / _DI4Y in let n := n mod _DI4Y in
  let n1 := n / 365 in let n := n mod 365 in
  let y := y + n100 * 100 + n4 * 4 + n1 in
  if (n1 =? 4) || (n100 =? 4) then (y - 1, 12, 31)
  else
    let leapyear := (n1 =? 3) && (negb (n4 =? 24) || (n100 =? 3)) in
    let m := Z.shiftr (n + 50) 5 in
    let preceding :=
      nth (Z.to_nat m) _DAYS_BEFORE_MONTH 0 + (if (2 <? m) && leapyear then 1 else 0) in
    if n <? preceding then
      let m := m - 1 in
      let preceding :=
        preceding
        - (nth (Z.to_nat m) _DAYS_IN_MONTH 0 + (if (m =? 2) && leapyear then 1 else 0)) in
      (y, m, n - preceding + 1)
    else (y, m, n - preceding + 1).

Lemma ord2ymd_as_cycle (n : Z) :
  _ord2ymd n = ord2ymd_cycle ((n - 1) / _DI400Y) ((n - 1) mod _DI400Y).
Proof. reflexivity. Qed.

Definition in_year (k : Z) (ymd : Z * Z * Z) : Z * Z * Z :=
  let '(y, m, d) := ymd in (y + 400 * k, m, d).

Lemma ord2ymd_cycle_shift (k r : Z) :
  ord2ymd_cycle k r = in_year k (ord2ymd_cycle 0 r).
Proof.
  unfold ord2ymd_cycle, in_year; cbv zeta.
  destruct (_ || _); [f_equal; f_equal; lia|].
  destruct (_ <? _); f_equal; f_equal; lia.
Qed.

(** The check made on each day of one cycle: the date found has the day's
    ordinal, lies in the first 400 years (the first 399 up to the last 366
    days of the cycle), and is a date of the calendar. *)
Definition cycle_day_ok (r : Z) : bool :=
  let '(y, m, d) := ord2ymd_cycle 0 r in
  (_ymd2ord y m d =? r + 1) && (1 <=? y) && (y <=? 400)
  && ((y <=? 399) || (_DI400Y - 366 <=? r))
  && (1 <=? m) && (m <=? 12) && (1 <=? d) && (d <=? _days_in_month y m).

(** The check on [fuel] consecutive days, from day [r] on. *)
Fixpoint cycle_days_from (fuel : nat) (r : Z) : bool :=
  match fuel with
  | O => true
  | S fuel' => cycle_day_ok r && cycle_days_from fuel' (r + 1)
  end.

Lemma cycle_days_from_all (fuel : nat) :
  forall r, cycle_days_from fuel r = true ->
  forall x, r <= x < r + Z.of_nat fuel -> cycle_day_ok x = true.
Proof.
  induction fuel as [|fuel IH]; intros r H x Hx; [lia|].
  cbn [cycle_days_from] in H; apply andb_true_iff in H as [H0 H1].
  destruct (Z.eq_dec x r) as [->|Hne]; [exact H0|].
  apply (IH (r + 1) H1); lia.
Qed.

Lemma cycle_days_ok : cycle_days_from (Z.to_nat _DI400Y) 0 = true.
Proof. vm_compute; reflexivity. Qed.

Lemma cycle_day_ok_all (r : Z) : 0 <= r < _DI400Y -> cycle_day_ok r = true.
Proof.
  intros Hr; apply (cycle_days_from_all _ 0 cycle_days_ok).
  rewrite Z2Nat.id by discriminate; lia.
Qed.


Lemma is_leap_shift (y k : Z) : _is_leap (y + 400 * k) = _is_leap y.
Proof.
  unfold _is_leap.
  replace ((y + 400 * k) mod 4) with (y mod 4)
    by (replace (y + 400 * k) with (y + (100 * k) * 4) by lia; now rewrite Z.mod_add).
  replace ((y + 400 * k) mod 100) with (y mod 100)
    by (replace (y + 400 * k) with (y + (4 * k) * 100) by lia; now rewrite Z.mod_add).
  replace ((y + 400 * k) mod 400) with (y mod 400)
    by (replace (y + 400 * k) with (y + k * 400) by lia; now rewrite Z.mod_add).
  reflexivity.
Qed.

Lemma days_before_year_shift (y k : Z) :
  _days_before_year (y + 400 * k) = _days_before_year y + _DI400Y * k.
Proof.
  unfold _days_before_year, _DI400Y; cbv zeta.
  replace ((y + 400 * k - 1) / 4) with ((y - 1) / 4 + 100 * k)
    by (replace (y + 400 * k - 1) with (y - 1 + (100 * k) * 4) by lia;
        now rewrite Z.div_add).
  replace ((y + 400 * k - 1) / 100) with ((y - 1) / 100 + 4 * k)
    by (replace (y + 400 * k - 1) with (y - 1 + (4 * k) * 100) by lia;
        now rewrite Z.div_add).
  replace ((y + 400 * k - 1) / 400) with ((y - 1) / 400 + k)
    by (replace (y + 400 * k - 1) with (y - 1 + k * 400) by lia;
        now rewrite Z.div_add).
  lia.
Qed.

Lemma ymd2ord_shift (y m d k : Z) :
  _ymd2ord (y + 400 * k) m d = _ymd2ord y m d + _DI400Y * k.
Proof.
  unfold _ymd2ord, _days_before_month.
  rewrite days_before_year_shift, is_leap_shift; lia.
Qed.

Lemma days_in_month_shift (y m k : Z) :
  _days_in_month (y + 400 * k) m = _days_in_month y m.
Proof. unfold _days_in_month; now rewrite is_leap_shift. Qed.

(** A date of the calendar. *)
Definition valid_date (y m d : Z) : Prop :=
  MINYEAR <= y <= MAXYEAR /\ 1 <= m <= 12 /\ 1 <= d <= _days_in_month y m.

(** The date of an ordinal in [1 .. MAXORDINAL] is a date of the calendar
    whose ordinal it is. *)
Lemma ord2ymd_ymd2ord (n : Z) :
  0 < n <= MAXORDINAL ->
  let '(y, m, d) := _ord2ymd n in
  _ymd2ord y m d = n /\ valid_date y m d.
Proof.
  intros Hn; rewrite ord2ymd_as_cycle, ord2ymd_cycle_shift.
  set (k := (n - 1) / _DI400Y); set (r := (n - 1) mod _DI400Y).
  assert (Hdm : n - 1 = _DI400Y * k + r) by (apply Z.div_mod; discriminate).
  assert (Hr : 0 <= r < _DI400Y) by (apply Z.mod_pos_bound; reflexivity).
  assert (Hk : 0 <= k <= 24).
  { unfold MAXORDINAL, _DI400Y in *; lia. }
  pose proof (cycle_day_ok_all r Hr) as Hok; unfold cycle_day_ok in Hok.
  destruct (ord2ymd_cycle 0 r) as [[y m] d]; unfold in_year.
  rewrite !andb_true_iff, orb_true_iff, !Z.leb_le, Z.eqb_eq in Hok.
  destruct Hok as (((((((H1 & H2) & H3) & H4) & H5) & H6) & H7) & H8).
  rewrite ymd2ord_shift; split; [lia|].
  unfold valid_date; rewrite days_in_month_shift.
  unfold MINYEAR, MAXYEAR, MAXORDINAL, _DI400Y in *; lia.
Qed.

(** Seconds that lie on a day of the calendar. *)
Definition representable (x : Z) : bool :=
  (0 <? x / 86400) && (x / 86400 <=? MAXORDINAL).

(** [dt + timedelta(seconds=delta)] denotes the instant [delta] seconds
    later, in the same zone, when that instant is on a day of the calendar,
    and raises [OverflowError] otherwise. *)
Lemma add_seconds_spec (dt : datetime) (delta : Z) :
  valid dt ->
  if representable (utc_seconds dt 0 + delta)
  then exists r, add_seconds dt delta = Ok r
                 /\ utc_seconds r 0 = utc_seconds dt 0 + delta
                 /\ tzinfo r = tzinfo dt /\ microsecond r = microsecond dt /\ valid r
  else add_seconds dt delta = Raise OverflowError.
Proof.
  intros (Hy & Hm & Hd & Hh & Hmi & Hs).
  unfold representable, add_seconds, utc_seconds; cbv zeta.
  set (ord := _ymd2ord (year dt) (month dt) (day dt)).
  set (secs := hour dt * 3600 + minute dt * 60 + second dt + delta).
  replace (ord * 86400 + hour dt * 3600 + minute dt * 60 + second dt - 0 + delta)
    with (ord * 86400 + secs) by (unfold secs; lia).
  rewrite Z.div_add_l by discriminate.
  destruct ((0 <? ord + secs / 86400) && (ord + secs / 86400 <=? MAXORDINAL)) eqn:E;
    cbv iota; [|reflexivity].
  apply andb_true_iff in E as [E1 E2]; apply Z.ltb_lt in E1; apply Z.leb_le in E2.
  pose proof (ord2ymd_ymd2ord (ord + secs / 86400) (conj E1 E2)) as Hord.
  destruct (_ord2ymd (ord + secs / 86400)) as [[y m] d]; destruct Hord as [Ho (Vy & Vm & Vd)].
  eexists; split; [reflexivity|]; cbn [year month day hour minute second tzinfo microsecond].
  assert (Hrem : 0 <= secs mod 86400 < 86400) by (apply Z.mod_pos_bound; reflexivity).
  assert (Hsecs : secs = 86400 * (secs / 86400) + secs mod 86400)
    by (apply Z.div_mod; discriminate).
  set (rem := secs mod 86400) in *.
  assert (H1 : rem = 3600 * (rem / 3600) + rem mod 3600)
    by (apply Z.div_mod; discriminate).
  assert (H2 : 0 <= rem mod 3600 < 3600) by (apply Z.mod_pos_bound; reflexivity).
  assert (H3 : rem mod 3600 = 60 * (rem mod 3600 / 60) + (rem mod 3600) mod 60)
    by (apply Z.div_mod; discriminate).
  assert (H4 : 0 <= (rem mod 3600) mod 60 < 60) by (apply Z.mod_pos_bound; reflexivity).
  assert (H5 : rem mod 60 = (rem mod 3600) mod 60).
  { rewrite H1 at 1.
    replace (3600 * (rem / 3600) + rem mod 3600)
      with (rem mod 3600 + (60 * (rem / 3600)) * 60) by lia.
    apply Z.mod_add; discriminate. }
  rewrite H5, Ho; unfold valid; repeat split;
    cbn [year month day hour minute second tzinfo microsecond];
    try assumption; try lia.
Qed.

(** [dt.astimezone(tz)] denotes the same instant in the zone [tz], when
    the instant lies on a day of the calendar both in UTC and in [tz]. *)
Lemma astimezone_spec (dt : datetime) (off tz : Z) :
  valid dt -> tzinfo dt = Some off ->
  if representable (utc_seconds dt off) && representable (utc_seconds dt off + tz)
  then exists r, astimezone dt tz = Ok r
                 /\ tzinfo r = Some tz /\ utc_seconds r tz = utc_seconds dt off
                 /\ microsecond r = microsecond dt /\ valid r
  else astimezone dt tz = Raise OverflowError.
Proof.
  intros Hv Htz; unfold astimezone; rewrite Htz.
  pose proof (add_seconds_spec dt (- off) Hv) as H1.
  replace (utc_seconds dt 0 + - off) with (utc_seconds dt off) in H1
    by (unfold utc_seconds; lia).
  destruct (representable (utc_seconds dt off)); [|now rewrite H1].
  destruct H1 as (utc & -> & Hu & _ & Hus & Hvu); cbn [result_bind andb].
  assert (Hv' : valid (replace_tzinfo utc (Some tz))) by exact Hvu.
  pose proof (add_seconds_spec (replace_tzinfo utc (Some tz)) tz Hv') as H2.
  replace (utc_seconds (replace_tzinfo utc (Some tz)) 0) with (utc_seconds utc 0) in H2
    by reflexivity.
  rewrite Hu in H2.
  destruct (representable (utc_seconds dt off + tz)); [|exact H2].
  destruct H2 as (r & -> & Hr & Hrt & Hrs & Hvr).
  exists r; split; [reflexivity|].
  split; [exact Hrt|].
  split; [unfold utc_seconds in *; lia|].
  split; [exact (eq_trans Hrs Hus) | exact Hvr].
Qed.

(** The naive value the constructor of [datetime] builds from six time
    fields that pass its checks. *)
Definition naive_of (t : struct_time) : datetime :=
  mkDatetime (tm_year t) (tm_mon t) (tm_mday t) (tm_hour t) (tm_min t) (tm_sec t) 0 None.

(** A fault of the constructor of [datetime]. *)
Definition constructor_fault (e : Exception) : Prop :=
  exc_type e = lit "ValueError" \/ exc_type e = lit "OverflowError".

Lemma as_c_int_spec (z : Z) :
  (as_c_int z = Ok z /\ - 2 ^ 31 <= z <= 2 ^ 31 - 1)
  \/ (exists e, as_c_int z = Raise e /\ constructor_fault e
                /\ (z < - 2 ^ 31 \/ 2 ^ 31 - 1 < z)).
Proof.
  unfold as_c_int.
  destruct (Z.ltb_spec z (- 2 ^ 63)); cbn [orb];
    [right; eexists; repeat split; [now right | lia]|].
  destruct (Z.ltb_spec (2 ^ 63 - 1) z); cbn [orb];
    [right; eexists; repeat split; [now right | lia]|].
  destruct (Z.ltb_spec (2 ^ 31 - 1) z);
    [right; eexists; repeat split; [now right | lia]|].
  destruct (Z.ltb_spec z (- 2 ^ 31));
    [right; eexists; repeat split; [now right | lia]|].
  left; split; [reflexivity | lia].
Qed.

(** The constructor accepts exactly the fields of a valid value. *)
Lemma datetime_of_struct_time_spec (t : struct_time) :
  (valid (naive_of t) /\ datetime_of_struct_time t = Ok (naive_of t))
  \/ (~ valid (naive_of t)
      /\ exists e, datetime_of_struct_time t = Raise e /\ constructor_fault e).
Proof.
  assert (Hdim : forall y m, _days_in_month y m <= 31).
  { intros y m; unfold _days_in_month.
    destruct ((m =? 2) && _is_leap y); [lia|].
    destruct (Z.to_nat m) as [|[|[|[|[|[|[|[|[|[|[|[|[|[|n]]]]]]]]]]]]]];
      cbn; try lia; destruct n; cbn; lia. }
  unfold datetime_of_struct_time, valid, naive_of, MINYEAR, MAXYEAR;
    cbn [year month day hour minute second].
  destruct t as [y mo d h mi sc]; cbn [tm_year tm_mon tm_mday tm_hour tm_min tm_sec].
  pose proof (Hdim y mo) as Hd.
  destruct (as_c_int_spec y) as [[-> _] | (e & -> & He & Hr)];
    [|right; split; [lia | now exists e]]; cbn [result_bind].
  destruct (as_c_int_spec mo) as [[-> _] | (e & -> & He & Hr)];
    [|right; split; [lia | now exists e]]; cbn [result_bind].
  destruct (as_c_int_spec d) as [[-> _] | (e & -> & He & Hr)];
    [|right; split; [lia | now exists e]]; cbn [result_bind].
  destruct (as_c_int_spec h) as [[-> _] | (e & -> & He & Hr)];
    [|right; split; [lia | now exists e]]; cbn [result_bind].
  destruct (as_c_int_spec mi) as [[-> _] | (e & -> & He & Hr)];
    [|right; split; [lia | now exists e]]; cbn [result_bind].
  destruct (as_c_int_spec sc) as [[-> _] | (e & -> & He & Hr)];
    [|right; split; [lia | now exists e]]; cbn [result_bind].
  destruct (Z.ltb_spec y 1); cbn [orb];
    [right; split; [lia | eexists; split; [reflexivity | now left]]|].
  destruct (Z.ltb_spec 9999 y); cbn [orb];
    [right; split; [lia | eexists; split; [reflexivity | now left]]|].
  destruct (Z.ltb_spec mo 1); cbn [orb];
    [right; split; [lia | eexists; split; [reflexivity | now left]]|].
  destruct (Z.ltb_spec 12 mo); cbn [orb];
    [right; split; [lia | eexists; split; [reflexivity | now left]]|].
  destruct (Z.ltb_spec d 1); cbn [orb];
    [right; split; [lia | eexists; split; [reflexivity | now left]]|].
  destruct (Z.ltb_spec (_days_in_month y mo) d); cbn [orb];
    [right; split; [lia | eexists; split; [reflexivity | now left]]|].
  destruct (Z.ltb_spec h 0); cbn [orb];
    [right; split; [lia | eexists; split; [reflexivity | now left]]|].
  destruct (Z.ltb_spec 23 h); cbn [orb];
    [right; split; [lia | eexists; split; [reflexivity | now left]]|].
  destruct (Z.ltb_spec mi 0); cbn [orb];
    [right; split; [lia | eexists; split; [reflexivity | now left]]|].
  destruct (Z.ltb_spec 59 mi); cbn [orb];
    [right; split; [lia | eexists; split; [reflexivity | now left]]|].
  destruct (Z.ltb_spec sc 0); cbn [orb];
    [right; split; [lia | eexists; split; [reflexivity | now left]]|].
  destruct (Z.ltb_spec 59 sc); cbn [orb];
    [right; split; [lia | eexists; split; [reflexivity | now left]]|].
  left; split; [lia | reflexivity].
Qed.

End DatetimeFacts.

Import DatetimeFacts.

Local Open Scope Z_scope.

(** The time fields the date of an entry is taken from:
    [published_parsed], or [updated_parsed] when the entry has no
    [published_parsed]. *)
Definition entry_time (e : Entry) : option struct_time :=
  match entry_published_parsed e with
  | Some t => Some t
  | None => entry_updated_parsed e
  end.

(** What the policy gives for a valid value [d] at the offset [local_tz]:
    a value [r] of the same instant with the local offset, or
    [OverflowError] when the instant is off the calendar in UTC or in the
    local zone. *)
Definition converted (local_tz : Z) (d : datetime) (outcome_ : result datetime) : Prop :=
  let source := match tzinfo d with Some off => off | None => 0 end in
  let instant := utc_seconds d source in
  if representable instant && representable (instant + local_tz)
  then exists r, outcome_ = Ok r
                 /\ tzinfo r = Some local_tz /\ utc_seconds r local_tz = instant
                 /\ microsecond r = microsecond d /\ valid r
  else outcome_ = Raise OverflowError.

Lemma convert_to_local_time_converted (local_tz : Z) (d : datetime) :
  valid d ->
  converted local_tz d
    (result_bind (_convert_to_local_time local_tz (Some d))
       (fun r => match r with
                 | Some r => Ok r
                 | None => Raise (AttributeError [])
                 end)).
Proof.
  intros Hv; unfold converted; cbv zeta; unfold _convert_to_local_time.
  destruct (tzinfo d) as [off|] eqn:Etz.
  - pose proof (astimezone_spec d off local_tz Hv Etz) as H.
    destruct (representable (utc_seconds d off) && representable (utc_seconds d off + local_tz)).
    + destruct H as (r & -> & H); now exists r.
    + now rewrite H.
  - assert (Hv' : valid (replace_tzinfo d UTC)) by exact Hv.
    pose proof (astimezone_spec (replace_tzinfo d UTC) 0 local_tz Hv' eq_refl) as H.
    replace (utc_seconds (replace_tzinfo d UTC) 0) with (utc_seconds d 0) in H by reflexivity.
    destruct (representable (utc_seconds d 0) && representable (utc_seconds d 0 + local_tz)).
    + destruct H as (r & -> & H); now exists r.
    + now rewrite H.
Qed.

Section Timestamps.

Variable W : Type.
Variable env : Collaborators W.

(** The timestamp of an entry, lines 336 to 349: no date for an entry
    without time fields; otherwise the fields, when they make a valid
    value, are declared UTC, converted to the local zone and formatted,
    and fields the constructor rejects make the turn raise. *)
Lemma published_date_of_policy (entry : Entry) (st : State W) :
  match entry_time entry with
  | None => published_date_of env entry st = (Ok None, st)
  | Some t =>
    let local_tz := local_utcoffset env (world st) in
    (valid (naive_of t) ->
     if representable (utc_seconds (naive_of t) 0)
        && representable (utc_seconds (naive_of t) 0 + local_tz)
     then exists r,
            published_date_of env entry st = (Ok (Some (isoformat r)), st)
            /\ tzinfo r = Some local_tz
            /\ utc_seconds r local_tz = utc_seconds (naive_of t) 0
            /\ microsecond r = 0 /\ valid r
     else published_date_of env entry st = (Raise OverflowError, st))
    /\ (~ valid (naive_of t) ->
        exists e, published_date_of env entry st = (Raise e, st)
                  /\ constructor_fault e)
  end.
Proof.
  assert (Hiso : forall t,
    (valid (naive_of t) ->
     if representable (utc_seconds (naive_of t) 0)
        && representable (utc_seconds (naive_of t) 0 + local_utcoffset env (world st))
     then exists r,
            local_isoformat (local_utcoffset env (world st)) t = Ok (isoformat r)
            /\ tzinfo r = Some (local_utcoffset env (world st))
            /\ utc_seconds r (local_utcoffset env (world st)) = utc_seconds (naive_of t) 0
            /\ microsecond r = 0 /\ valid r
     else local_isoformat (local_utcoffset env (world st)) t = Raise OverflowError)
    /\ (~ valid (naive_of t) ->
        exists e, local_isoformat (local_utcoffset env (world st)) t = Raise e
                  /\ constructor_fault e)).
  { intros t; unfold local_isoformat.
    destruct (datetime_of_struct_time_spec t) as [[Hv ->] | (Hn & e & -> & He)];
      cbn [result_bind].
    - split; [intros _ | intros Hn; now elim Hn].
      assert (Hv' : valid (replace_tzinfo (naive_of t) UTC)) by exact Hv.
      pose proof (convert_to_local_time_converted (local_utcoffset env (world st))
                    (replace_tzinfo (naive_of t) UTC) Hv') as H.
      unfold converted in H; cbv zeta in H.
      cbn [tzinfo replace_tzinfo UTC] in H.
      change (utc_seconds (replace_tzinfo (naive_of t) UTC) 0)
        with (utc_seconds (naive_of t) 0) in H.
      destruct (representable (utc_seconds (naive_of t) 0)
                && representable (utc_seconds (naive_of t) 0
                                  + local_utcoffset env (world st))).
      + destruct H as (r & Hr & Htz & Hs & Hm & Hvr).
        destruct (_convert_to_local_time (local_utcoffset env (world st))
                    (Some (replace_tzinfo (naive_of t) UTC))) as [[r'|]|x];
          try discriminate Hr.
        cbn [result_bind] in Hr |- *; injection Hr as ->.
        exists r; split; [reflexivity|]; split; [exact Htz|]; split; [exact Hs|].
        split; [exact Hm | exact Hvr].
      + destruct (_convert_to_local_time (local_utcoffset env (world st))
                    (Some (replace_tzinfo (naive_of t) UTC))) as [[r'|]|x];
          try discriminate H.
        cbn [result_bind] in H |- *; now injection H as ->.
    - split; [intros Hv; now elim Hn | intros _; now exists e]. }
  unfold entry_time, published_date_of.
  assert (Hrun : forall t,
    (tz <- ask (local_utcoffset env) ;;
     d <- lift (local_isoformat tz t) ;; ret (Some d))%pipeline st
    = (match local_isoformat (local_utcoffset env (world st)) t with
       | Ok d => Ok (Some d)
       | Raise e => Raise e
       end, st)).
  { intros t; unfold bind, ask, lift, ret.
    now destruct (local_isoformat (local_utcoffset env (world st)) t). }
  assert (Hfields : forall t,
    (valid (naive_of t) ->
     if representable (utc_seconds (naive_of t) 0)
        && representable (utc_seconds (naive_of t) 0 + local_utcoffset env (world st))
     then exists r,
            (tz <- ask (local_utcoffset env) ;;
             d <- lift (local_isoformat tz t) ;; ret (Some d))%pipeline st
            = (Ok (Some (isoformat r)), st)
            /\ tzinfo r = Some (local_utcoffset env (world st))
            /\ utc_seconds r (local_utcoffset env (world st)) = utc_seconds (naive_of t) 0
            /\ microsecond r = 0 /\ valid r
     else (tz <- ask (local_utcoffset env) ;;
           d <- lift (local_isoformat tz t) ;; ret (Some d))%pipeline st
          = (Raise OverflowError, st))
    /\ (~ valid (naive_of t) ->
        exists e, (tz <- ask (local_utcoffset env) ;;
                   d <- lift (local_isoformat tz t) ;; ret (Some d))%pipeline st
                  = (Raise e, st)
                  /\ constructor_fault e)).
  { intros t; rewrite Hrun; destruct (Hiso t) as [H1 H2]; split.
    - intros Hv; specialize (H1 Hv).
      destruct (representable (utc_seconds (naive_of t) 0)
                && representable (utc_seconds (naive_of t) 0
                                  + local_utcoffset env (world st))).
      + destruct H1 as (r & -> & H); now exists r.
      + now rewrite H1.
    - intros Hn; destruct (H2 Hn) as (e & -> & He); now exists e. }
  destruct (entry_published_parsed entry) as [t|]; [exact (Hfields t)|].
  destruct (entry_updated_parsed entry) as [t|]; [exact (Hfields t) | reflexivity].
Qed.

End Timestamps.

(** The published date of the only item of a result. *)
Definition only_published (r : FetchResult) : option (option str) :=
  match items r with
  | Some [RssItem p] => Some (pe_published p)
  | _ => None
  end.

(** C3. [None] is returned as it is.  A value with a zone is converted to
    the local zone: the result denotes the same instant, carries the local
    offset and the same microseconds.  A value without a zone is read as
    UTC and converted the same way.  The conversion raises [OverflowError]
    exactly when the instant falls outside the calendar in UTC or in the
    local zone.  In particular the naive 2024-01-01T00:00:00 under the
    local offset +08:00 becomes 2024-01-01T08:00:00+08:00.

    The timestamp of every entry goes through this policy (lines 336 to
    349): an entry without time fields has no date; the fields of
    [published_parsed], or of [updated_parsed] without it, are read as UTC,
    and the date of the item is the ISO text of the value of the same
    instant at the local offset; the turn raises when the instant is off
    the calendar or when the fields are no valid value.  In particular an
    entry published at the fields 2024-01-01 00:00:00, fetched under the
    local offset +08:00, gives an item dated 2024-01-01T08:00:00+08:00. *)
Theorem convert_to_local_time_policy (local_tz : Z) (dt : option datetime) :
  match dt with Some d => valid d | None => True end ->
  match dt with
  | None => _convert_to_local_time local_tz None = Ok None
  | Some d =>
    let source := match tzinfo d with Some off => off | None => 0 end in
    let instant := utc_seconds d source in
    if representable instant && representable (instant + local_tz)
    then exists r, _convert_to_local_time local_tz (Some d) = Ok (Some r)
                   /\ tzinfo r = Some local_tz /\ utc_seconds r local_tz = instant
                   /\ microsecond r = microsecond d /\ valid r
    else _convert_to_local_time local_tz (Some d) = Raise OverflowError
  end
  /\ result_bind (_convert_to_local_time 28800 (Some (mkDatetime 2024 1 1 0 0 0 0 None)))
       (fun r => Ok (option_map isoformat r))
     = Ok (Some (lit "2024-01-01T08:00:00+08:00"))
  /\ (forall (W : Type) (env : Collaborators W) (entry : Entry) (st : State W),
        match entry_time entry with
        | None => published_date_of env entry st = (Ok None, st)
        | Some t =>
          let local_tz := local_utcoffset env (world st) in
          (valid (naive_of t) ->
           if representable (utc_seconds (naive_of t) 0)
              && representable (utc_seconds (naive_of t) 0 + local_tz)
           then exists r,
                  published_date_of env entry st = (Ok (Some (isoformat r)), st)
                  /\ tzinfo r = Some local_tz
                  /\ utc_seconds r local_tz = utc_seconds (naive_of t) 0
                  /\ microsecond r = 0 /\ valid r
           else published_date_of env entry st = (Raise OverflowError, st))
          /\ (~ valid (naive_of t) ->
              exists e, published_date_of env entry st = (Raise e, st)
                        /\ constructor_fault e)
        end)
  /\ (let entry :=
        mkEntry (Some (lit "http://example.org/1")) None (Some (lit "One"))
                (Some (mkStructTime 2024 1 1 0 0 0)) None None None in
      let st := Scenario.start
                  (Scenario.world_of (Ok (mkParsedFeed true (Some [entry]) None)) []) in
      local_utcoffset Scenario.env (world st) = 28800
      /\ only_published
           (outcome (fetch_feed Scenario.env (lit "http://example.org/rss") 1 None st))
         = Some (Some (lit "2024-01-01T08:00:00+08:00"))).
Proof.
  intros Hv; split; [|split; [reflexivity|split]].
  - destruct dt as [d|]; [|reflexivity].
    pose proof (convert_to_local_time_converted local_tz d Hv) as H.
    unfold converted in H; cbv zeta in H |- *.
    destruct (representable _ && representable _).
    + destruct H as (r & Hr & H).
      destruct (_convert_to_local_time local_tz (Some d)) as [[r'|]|x];
        try discriminate Hr.
      cbn [result_bind] in Hr; injection Hr as ->; now exists r.
    + destruct (_convert_to_local_time local_tz (Some d)) as [[r'|]|x];
        try discriminate H.
      cbn [result_bind] in H; now injection H as ->.
  - intros W env entry st; exact (published_date_of_policy W env entry st).
  - vm_compute; split; reflexivity.
Qed.

(** An instance: scenario D. *)
Lemma convert_to_local_time_policy_witness :
  exists r,
    _convert_to_local_time 28800 (Some (mkDatetime 2024 1 1 0 0 0 0 None)) = Ok (Some r)
    /\ tzinfo r = Some 28800
    /\ utc_seconds r 28800 = utc_seconds (mkDatetime 2024 1 1 0 0 0 0 None) 0
    /\ microsecond r = 0 /\ valid r.
Proof.
  assert (Hv : valid (mkDatetime 2024 1 1 0 0 0 0 None)) by (vm_compute; intuition discriminate).
  exact (proj1 (convert_to_local_time_policy 28800
                  (Some (mkDatetime 2024 1 1 0 0 0 0 None)) Hv)).
Defined.

(* ================================================================== *)
(** * The gate inside the two loops *)
(* ================================================================== *)

Section GateInLoops.

Variable W : Type.
Variable env : Collaborators W.

(** The identifier the generic branch gives an entry: the canonical form
    of its id, or of its link when it has no id; none when it has
    neither. *)
Definition entry_article_id (e : Entry) : option str :=
  match (if truthy_opt (entry_id e) then entry_id e else entry_link e) with
  | Some base => if truthy base then Some (normalize_article_id env base) else None
  | None => None
  end.

(** In the generic branch an identified entry the gate skips is counted in
    [skipped] and nothing else happens to it. *)
Lemma process_entry_skipped feed feed_url task_id (e : Entry) p s st
    (article_id reason : str) (st1 : State W) :
  entry_article_id e = Some article_id ->
  skip_check env article_id task_id st = (Ok (true, reason), st1) ->
  process_entry env feed feed_url task_id e (p, s) st = (Ok (p, S s), st1).
Proof.
  unfold entry_article_id, process_entry.
  destruct (if truthy_opt (entry_id e) then entry_id e else entry_link e) as [base|];
    [|discriminate].
  destruct (truthy base); [|discriminate].
  intros H; injection H as <-; intros Hg; cbn [negb].
  unfold bind; now rewrite Hg.
Qed.

(** In the generic branch an entry is counted in [skipped] only when the
    gate says so: with the gate disabled or without a task id, a turn of
    the loop leaves the counter as it is. *)
Lemma process_entry_not_skipped_when_disabled feed feed_url task_id (e : Entry)
    p s st p' s' st' :
  skip_processed st && truthy_opt task_id = false ->
  process_entry env feed feed_url task_id e (p, s) st = (Ok (p', s'), st') ->
  s' = s.
Proof.
  intros Hd; unfold process_entry.
  destruct (if truthy_opt (entry_id e) then entry_id e else entry_link e) as [base|];
    [|intros H; now injection H as _ <- _].
  destruct (negb (truthy base)); [intros H; now injection H as _ <- _|].
  unfold bind at 1; rewrite (skip_check_disabled env _ task_id st Hd); cbn [fst].
  unfold bind, raise, ret; intros H.
  repeat match type of H with
         | (let (_, _) := ?m in _) = _ => destruct m as [[?|?] ?]; try discriminate H
         | (match ?m with Some _ => _ | None => _ end) _ = _ =>
           destruct m; try discriminate H
         end.
  now injection H as _ <- _.
Qed.

End GateInLoops.

(* ================================================================== *)
(** * The scenarios of the specification, on the in-memory instance *)
(* ================================================================== *)

(** Scenario A: three entries, no task history, [items_count = 2]. *)
Lemma scenario_three_entries_two_wanted :
  Scenario.counts
    (fetch_feed Scenario.env (lit "http://example.org/rss") 2 None
       (Scenario.start (Scenario.world_of (Ok Scenario.three_entries) [])))
  = Some (3, 2, 0)%nat.
Proof. vm_compute; reflexivity. Qed.

(** Scenario B: every article already sent for the task. *)
Lemma scenario_everything_already_sent :
  Scenario.counts
    (fetch_feed Scenario.env (lit "http://example.org/rss") 2 (Some (lit "T"))
       (Scenario.start
          (Scenario.world_of (Ok Scenario.three_entries)
             [(lit "http://example.org/1", lit "T");
              (lit "http://example.org/2", lit "T");
              (lit "http://example.org/3", lit "T")])))
  = Some (3, 0, 3)%nat.
Proof. vm_compute; reflexivity. Qed.

(** An entry without a title is collected and then makes the whole fetch
    fail: the store is given [entry.title] without the guard used for the
    returned item. *)
Lemma entry_without_title_fails_the_fetch :
  let untitled := mkEntry (Some (lit "http://example.org/1")) None None None None None None in
  let feed := mkParsedFeed true (Some [untitled]) None in
  fst (fetch_feed Scenario.env (lit "http://example.org/rss") 2 None
         (Scenario.start (Scenario.world_of (Ok feed) [])))
  = Ok (fail_result (lit "object has no attribute 'title'")).
Proof. vm_compute; reflexivity. Qed.

(** The policy for a value without a zone, read on the code: it is treated
    exactly as the same fields declared UTC. *)
Lemma convert_naive_as_utc (local_tz : Z) (d : datetime) :
  tzinfo d = None ->
  _convert_to_local_time local_tz (Some d)
  = _convert_to_local_time local_tz (Some (replace_tzinfo d UTC)).
Proof. intros H; unfold _convert_to_local_time; now rewrite H. Qed.

(** At the edge of the calendar the conversion raises: the first instant of
    year 1, read as UTC, has no date eight hours west of UTC. *)
Lemma convert_overflow_at_calendar_start :
  _convert_to_local_time (-28800) (Some (mkDatetime 1 1 1 0 0 0 0 None))
  = Raise OverflowError.
Proof. reflexivity. Qed.

(* ================================================================== *)
(** * The setting [skip_processed] during a fetch *)
(* ================================================================== *)

Section Setting.

Variable W : Type.
Variable env : Collaborators W.

(** [keeps m]: [m] leaves [self.skip_processed] as it found it, whether it
    returns or raises. *)
Definition keeps {A} (m : M W A) : Prop :=
  forall st, skip_processed (snd (m st)) = skip_processed st.

Lemma keeps_ret {A} (a : A) : keeps (ret a).
Proof. intros st; reflexivity. Qed.

Lemma keeps_raise {A} (e : Exception) : keeps (@raise W A e).
Proof. intros st; reflexivity. Qed.

Lemma keeps_lift {A} (r : result A) : keeps (@lift W A r).
Proof. intros st; reflexivity. Qed.

Lemma keeps_ask {A} (f : W -> A) : keeps (ask f).
Proof. intros st; reflexivity. Qed.

Lemma keeps_call {A} (f : W -> result A * W) : keeps (call f).
Proof. intros st; unfold call; now destruct (f (world st)). Qed.

Lemma keeps_get : keeps (@get_skip_processed W).
Proof. intros st; reflexivity. Qed.

Lemma keeps_bind {A B} (m : M W A) (k : A -> M W B) :
  keeps m -> (forall a, keeps (k a)) -> keeps (bind m k).
Proof.
  intros Hm Hk st; unfold bind; specialize (Hm st).
  destruct (m st) as [[a|e] st1]; simpl in *; [|exact Hm].
  now rewrite (Hk a st1).
Qed.

Lemma keeps_if {A} (b : bool) (m1 m2 : M W A) :
  keeps m1 -> keeps m2 -> keeps (if b then m1 else m2).
Proof. now destruct b. Qed.

Local Ltac keeps_step :=
  repeat first
    [ apply keeps_ret | apply keeps_raise | apply keeps_lift | apply keeps_ask
    | apply keeps_call | apply keeps_get
    | apply keeps_bind; [|intros ?]
    | apply keeps_if ].

Lemma keeps_skip_check (article_id : str) (task_id : option str) :
  keeps (skip_check env article_id task_id).
Proof.
  unfold skip_check; apply keeps_bind; [apply keeps_get|intros sp].
  destruct task_id as [tid|]; keeps_step.
Qed.

Lemma keeps_published_date_of (e : Entry) : keeps (published_date_of env e).
Proof.
  unfold published_date_of.
  destruct (entry_published_parsed e); [keeps_step|].
  destruct (entry_updated_parsed e); keeps_step.
Qed.

Lemma keeps_process_entry feed feed_url task_id (e : Entry) acc :
  keeps (process_entry env feed feed_url task_id e acc).
Proof.
  unfold process_entry; destruct acc as [p s].
  destruct (if truthy_opt (entry_id e) then entry_id e else entry_link e) as [base|];
    [|apply keeps_ret].
  apply keeps_if; [apply keeps_ret|].
  apply keeps_bind; [apply keeps_skip_check|intros sk].
  apply keeps_if; [apply keeps_ret|].
  apply keeps_bind; [apply keeps_published_date_of|intros d].
  do 3 (apply keeps_bind; [keeps_step|intros ?]).
  destruct (entry_title e); keeps_step.
Qed.

Lemma keeps_process_entries feed feed_url items_count task_id (entries : list Entry) :
  forall acc, keeps (process_entries env feed feed_url items_count task_id entries acc).
Proof.
  induction entries as [|e rest IH]; intros acc; simpl; [apply keeps_ret|].
  apply keeps_if; [|apply keeps_ret].
  apply keeps_bind; [apply keeps_process_entry | exact IH].
Qed.

Lemma keeps_process_wechat_entry feed_url task_id (e : WechatEntry) acc :
  keeps (process_wechat_entry env feed_url task_id e acc).
Proof.
  unfold process_wechat_entry; destruct acc as [p s].
  apply keeps_bind; [apply keeps_lift|intros aid].
  apply keeps_bind; [apply keeps_skip_check|intros sk].
  keeps_step.
Qed.

Lemma keeps_process_wechat_entries feed_url task_id (entries : list WechatEntry) :
  forall acc, keeps (process_wechat_entries env feed_url task_id entries acc).
Proof.
  induction entries as [|e rest IH]; intros acc; simpl; [apply keeps_ret|].
  apply keeps_bind; [apply keeps_process_wechat_entry | exact IH].
Qed.

Lemma keeps_rss_branch feed_url items_count task_id :
  keeps (rss_branch env feed_url items_count task_id).
Proof.
  unfold rss_branch; apply keeps_bind; [apply keeps_call|intros feed].
  apply keeps_if; [apply keeps_ret|].
  destruct (feed_entries feed) as [[|e rest]|]; try apply keeps_ret.
  apply keeps_bind; [apply keeps_process_entries|intros [p0 s0]; apply keeps_ret].
Qed.

Lemma keeps_wechat_branch feed_url items_count task_id :
  keeps (wechat_branch env feed_url items_count task_id).
Proof.
  unfold wechat_branch; apply keeps_bind; [apply keeps_call|intros r].
  destruct (wr_status r); [|apply keeps_raise].
  apply keeps_if; [apply keeps_ret|].
  destruct (wr_items r); [|apply keeps_raise].
  apply keeps_bind; [apply keeps_process_wechat_entries|intros [p0 s0]; apply keeps_ret].
Qed.

(** The setting a fetch leaves in [self.skip_processed]: the value of a
    configuration that loads, the previous value when loading fails. *)
Definition refreshed_setting (st : State W) : bool :=
  match fst (load_config env (world st)) with
  | Ok v => v
  | Raise _ => skip_processed st
  end.

(** [refresh_settings] returns, unless loading the configuration raises
    a fault outside [Exception], which it lets through; in both cases the
    attribute holds the refreshed setting. *)
Lemma refresh_settings_state (st : State W) :
  (exists v, refresh_settings env st
             = (Ok v, mkState (refreshed_setting st) (snd (load_config env (world st)))))
  \/ (exists e, isinstance_Exception e = false
                /\ fst (load_config env (world st)) = Raise e
                /\ refresh_settings env st
                   = (Raise e, mkState (refreshed_setting st)
                                       (snd (load_config env (world st))))).
Proof.
  unfold refresh_settings, try_except, bind, call, set_skip_processed, ret, refreshed_setting.
  destruct (load_config env (world st)) as [[v|e] w]; simpl; [left; eauto|].
  destruct (isinstance_Exception e) eqn:Ee; simpl; [left; eauto|].
  right; exists e; repeat split; assumption.
Qed.

(** Loading the configuration raises no fault outside [Exception]: the
    condition for [refresh_settings] to return. *)
Definition refresh_returns (st : State W) : bool :=
  match fst (load_config env (world st)) with
  | Ok _ => true
  | Raise e => isinstance_Exception e
  end.

Lemma refresh_settings_returns (st : State W) :
  refresh_returns st = true ->
  exists v, refresh_settings env st
            = (Ok v, mkState (refreshed_setting st) (snd (load_config env (world st)))).
Proof.
  unfold refresh_returns; intros Hr.
  destruct (refresh_settings_state st) as [H | (e & He & Hl & _)]; [exact H|].
  rewrite Hl in Hr; congruence.
Qed.

(** X1. Whatever a fetch does afterwards, it leaves in [self.skip_processed]
    the setting read when it started: the value of the configuration when
    it loads, the previous value when loading it fails.  Nothing else in
    [fetch_feed] writes the attribute, also when the fetch fails. *)
Theorem fetch_feed_leaves_refreshed_setting (feed_url : str) (items_count : Z)
    (task_id : option str) (st : State W) :
  skip_processed (snd (fetch_feed env feed_url items_count task_id st))
  = refreshed_setting st.
Proof.
  unfold fetch_feed, try_except, fetch_feed_body, bind.
  destruct (refresh_settings_state st) as [[v ->]|[e0 [He0 [_ ->]]]];
    [|rewrite He0; reflexivity].
  set (st1 := mkState (refreshed_setting st) (snd (load_config env (world st)))).
  assert (Hk : keeps (if is_wechat_source feed_url
                      then wechat_branch env feed_url items_count task_id
                      else rss_branch env feed_url items_count task_id))
    by (apply keeps_if; [apply keeps_wechat_branch | apply keeps_rss_branch]).
  specialize (Hk st1); cbv beta.
  destruct ((if is_wechat_source feed_url
             then wechat_branch env feed_url items_count task_id
             else rss_branch env feed_url items_count task_id) st1) as [[r|e] st2];
    [|destruct (isinstance_Exception e)]; simpl in *; exact Hk.
Qed.

Lemma keeps_ok {A} (m : M W A) (st st' : State W) (a : A) :
  keeps m -> m st = (Ok a, st') -> skip_processed st' = skip_processed st.
Proof. intros Hk E; specialize (Hk st); now rewrite E in Hk. Qed.

Lemma process_wechat_entry_not_skipped_when_disabled feed_url task_id (e : WechatEntry)
    p s st p' s' st' :
  skip_processed st && truthy_opt task_id = false ->
  process_wechat_entry env feed_url task_id e (p, s) st = (Ok (p', s'), st') ->
  s' = s.
Proof.
  intros Hd; unfold process_wechat_entry.
  unfold bind at 1, lift at 1.
  destruct (wechat_article_id env feed_url e) as [aid|x]; [|discriminate].
  unfold bind at 1; rewrite (skip_check_disabled env aid task_id st Hd); cbn [fst].
  unfold bind, raise, ret; intros H.
  repeat match type of H with
         | (let (_, _) := ?m in _) = _ => destruct m as [[?|?] ?]; try discriminate H
         end.
  now injection H as _ <- _.
Qed.

Lemma process_entries_not_skipped_when_disabled feed feed_url items_count task_id
    (entries : list Entry) :
  forall p s st p' s' st',
  skip_processed st && truthy_opt task_id = false ->
  process_entries env feed feed_url items_count task_id entries (p, s) st
  = (Ok (p', s'), st') ->
  s' = s.
Proof.
  induction entries as [|e rest IH]; intros p s st p' s' st' Hd;
    cbn [process_entries fst].
  - intros H; now injection H as _ <- _.
  - destruct (Z.of_nat (length p) <? items_count); [|intros H; now injection H as _ <- _].
    unfold bind at 1; intros H.
    destruct (process_entry env feed feed_url task_id e (p, s) st) as [[[p1 s1]|x] st1] eqn:E;
      [|discriminate H].
    rewrite <- (process_entry_not_skipped_when_disabled W env feed feed_url task_id e
                  p s st p1 s1 st1 Hd E).
    apply (IH p1 s1 st1 p' s' st'); [|exact H].
    now rewrite (keeps_ok _ _ _ _ (keeps_process_entry feed feed_url task_id e (p, s)) E).
Qed.

Lemma process_wechat_entries_not_skipped_when_disabled feed_url task_id
    (entries : list WechatEntry) :
  forall p s st p' s' st',
  skip_processed st && truthy_opt task_id = false ->
  process_wechat_entries env feed_url task_id entries (p, s) st = (Ok (p', s'), st') ->
  s' = s.
Proof.
  induction entries as [|e rest IH]; intros p s st p' s' st' Hd;
    cbn [process_wechat_entries].
  - intros H; now injection H as _ <- _.
  - unfold bind at 1; intros H.
    destruct (process_wechat_entry env feed_url task_id e (p, s) st)
      as [[[p1 s1]|x] st1] eqn:E; [|discriminate H].
    rewrite <- (process_wechat_entry_not_skipped_when_disabled feed_url task_id e
                  p s st p1 s1 st1 Hd E).
    apply (IH p1 s1 st1 p' s' st'); [|exact H].
    now rewrite (keeps_ok _ _ _ _ (keeps_process_wechat_entry feed_url task_id e (p, s)) E).
Qed.

(** The body of [fetch_feed] after the settings are refreshed. *)
Definition fetch_branch (feed_url : str) (items_count : Z) (task_id : option str)
  : M W FetchResult :=
  if is_wechat_source feed_url
  then wechat_branch env feed_url items_count task_id
  else rss_branch env feed_url items_count task_id.

(** A result [fetch_feed] returns with status "success" is the result of
    the branch taken, run in the state the refresh leaves. *)
Lemma fetch_feed_success_inv (feed_url : str) (items_count : Z) (task_id : option str)
    (st st' : State W) (r : FetchResult) :
  fetch_feed env feed_url items_count task_id st = (Ok r, st') ->
  is_success r = true ->
  fetch_branch feed_url items_count task_id
    (mkState (refreshed_setting st) (snd (load_config env (world st))))
  = (Ok r, st').
Proof.
  unfold fetch_feed, try_except, fetch_feed_body, bind, fetch_branch.
  destruct (refresh_settings_state st) as [[v ->]|[e0 [He0 [_ ->]]]];
    [|rewrite He0; discriminate].
  cbv beta.
  destruct ((if is_wechat_source feed_url
             then wechat_branch env feed_url items_count task_id
             else rss_branch env feed_url items_count task_id) _) as [[r0|e] st2].
  - now intros H _.
  - destruct (isinstance_Exception e); [|discriminate].
    intros H Hs; injection H as <- _; discriminate Hs.
Qed.

(** X2. Without a task id, or when the configuration read at the start of
    the fetch turns [skip_processed_articles] off, a successful result
    reports no skipped article, whatever the attribute held before the
    call and whatever the task history says. *)
Theorem no_skips_when_gate_off (feed_url : str) (items_count : Z)
    (task_id : option str) (st st' : State W) (r : FetchResult) :
  refreshed_setting st && truthy_opt task_id = false ->
  fetch_feed env feed_url items_count task_id st = (Ok r, st') ->
  is_success r = true ->
  option_map skipped (stats r) = Some O.
Proof.
  intros Hoff E Hs.
  pose proof (fetch_feed_success_inv feed_url items_count task_id st st' r E Hs) as Hb.
  set (st1 := mkState (refreshed_setting st) (snd (load_config env (world st)))) in Hb.
  assert (Hd : skip_processed st1 && truthy_opt task_id = false) by exact Hoff.
  unfold fetch_branch in Hb; destruct (is_wechat_source feed_url).
  - unfold wechat_branch, bind, call in Hb.
    destruct (parse_wechat_source env feed_url items_count (world st1)) as [[wr|x] w2];
      [|discriminate Hb].
    destruct (wr_status wr) as [sts|] eqn:Est; [|discriminate Hb].
    destruct (negb (Str.eqb sts (lit "success"))) eqn:En.
    + injection Hb as <- _; unfold is_success, wechat_result_as_is in Hs; simpl in Hs.
      rewrite Est in Hs; apply negb_true_iff in En; congruence.
    + destruct (wr_items wr) as [its|]; [|discriminate Hb].
      destruct (process_wechat_entries env feed_url task_id its ([], O) _)
        as [[[p s]|x] st2] eqn:El; [|discriminate Hb].
      apply process_wechat_entries_not_skipped_when_disabled in El; [|exact Hd].
      injection Hb as <- _; simpl; now rewrite El.
  - unfold rss_branch, bind, call in Hb.
    destruct (feedparser_parse env feed_url (world st1)) as [[feed|x] w2];
      [|discriminate Hb].
    destruct (negb (feed_truthy feed)); [injection Hb as <- _; discriminate Hs|].
    destruct (feed_entries feed) as [[|e rest]|];
      try (injection Hb as <- _; discriminate Hs).
    destruct (process_entries env feed feed_url items_count task_id (e :: rest) ([], O) _)
      as [[[p s]|x] st2] eqn:El; [|discriminate Hb].
    apply process_entries_not_skipped_when_disabled in El; [|exact Hd].
    injection Hb as <- _; simpl; now rewrite El.
Qed.

End Setting.

(* ================================================================== *)
(** * What the items of a result are *)
(* ================================================================== *)

(** [kept_in_order R xs ys]: the [ys] are related by [R], one to one and in
    the same order, to some of the [xs]. *)
Inductive kept_in_order {A B : Type} (R : A -> B -> Prop) : list A -> list B -> Prop :=
| kept_none (xs : list A) : kept_in_order R xs []
| kept_drop (x : A) (xs : list A) (ys : list B) :
    kept_in_order R xs ys -> kept_in_order R (x :: xs) ys
| kept_take (x : A) (xs : list A) (y : B) (ys : list B) :
    R x y -> kept_in_order R xs ys -> kept_in_order R (x :: xs) (y :: ys).

Lemma kept_in_order_length {A B : Type} (R : A -> B -> Prop) (xs : list A) (ys : list B) :
  kept_in_order R xs ys -> (length ys <= length xs)%nat.
Proof. induction 1; simpl; lia. Qed.

Section Items.

Variable W : Type.
Variable env : Collaborators W.

(** [entry.content[0].value], or the summary when the entry has no
    content. *)
Definition raw_content_of (e : Entry) : str :=
  match entry_content e with
  | Some (c :: _) => c
  | _ => get_default (entry_summary e) []
  end.

(** The item built from an entry of a generic feed. *)
Definition item_of (feed : ParsedFeed) (feed_url : str) (e : Entry) (p : ProcessedEntry)
  : Prop :=
  entry_article_id W env e = Some (pe_article_id p)
  /\ entry_title e = Some (pe_title p)
  /\ pe_link p = entry_link e
  /\ _clean_html (soup_get_text env) (get_default (entry_summary e) []) = Ok (pe_summary p)
  /\ _clean_html (soup_get_text env) (raw_content_of e) = Ok (pe_content p)
  /\ pe_source p = get_default (feed_title feed) feed_url
  /\ pe_feed_url p = feed_url
  /\ (pe_published p = None
      <-> entry_published_parsed e = None /\ entry_updated_parsed e = None).

Lemma published_date_of_none (e : Entry) :
  post (published_date_of env e)
       (fun d => d = None
                 <-> entry_published_parsed e = None /\ entry_updated_parsed e = None).
Proof.
  unfold published_date_of.
  destruct (entry_published_parsed e) as [t|].
  - eapply post_bind; [apply post_any|intros tz _].
    eapply post_bind; [apply post_any|intros d _].
    apply post_ret; split; [discriminate | intros [H _]; discriminate H].
  - destruct (entry_updated_parsed e) as [t|].
    + eapply post_bind; [apply post_any|intros tz _].
      eapply post_bind; [apply post_any|intros d _].
      apply post_ret; split; [discriminate | intros [_ H]; discriminate H].
    + apply post_ret; split; auto.
Qed.

(** A turn of the generic loop collects nothing or the item of its entry. *)
Lemma process_entry_item feed feed_url task_id (e : Entry) p s :
  post (process_entry env feed feed_url task_id e (p, s))
       (fun acc' => fst acc' = p
                    \/ exists pe, fst acc' = p ++ [pe] /\ item_of feed feed_url e pe).
Proof.
  unfold process_entry.
  destruct (if truthy_opt (entry_id e) then entry_id e else entry_link e) as [base|] eqn:Eb;
    [|apply post_ret; now left].
  destruct (truthy base) eqn:Et; cbn [negb]; [|apply post_ret; now left].
  eapply post_bind; [apply post_any|intros sk _].
  destruct (fst sk); [apply post_ret; now left|].
  eapply post_bind; [apply published_date_of_none|intros d Hd].
  eapply post_bind; [apply post_lift; intros a Ha; exact Ha|intros cs Hcs].
  eapply post_bind; [apply post_lift; intros a Ha; exact Ha|intros cc Hcc].
  eapply post_bind; [apply post_any|intros h _].
  destruct (entry_title e) as [t|] eqn:Etitle; [|apply post_raise].
  eapply post_bind; [apply post_any|intros u _].
  apply post_ret; right; eexists; split; [reflexivity|].
  unfold item_of, entry_article_id, raw_content_of; cbn.
  rewrite Eb, Et, Etitle.
  do 7 (split; [first [assumption | reflexivity]|]); exact Hd.
Qed.

Lemma process_entries_items feed feed_url items_count task_id (entries : list Entry) :
  forall p s,
  post (process_entries env feed feed_url items_count task_id entries (p, s))
       (fun acc' => exists q, fst acc' = p ++ q
                              /\ kept_in_order (item_of feed feed_url) entries q).
Proof.
  induction entries as [|e rest IH]; intros p s; cbn [process_entries fst].
  - apply post_ret; exists []; split; [now rewrite app_nil_r | constructor].
  - destruct (Z.of_nat (length p) <? items_count);
      [|apply post_ret; exists []; split; [now rewrite app_nil_r | constructor]].
    eapply post_bind; [apply process_entry_item|].
    intros [p1 s1] H1; cbn [fst] in H1.
    eapply post_weaken; [apply IH|].
    intros [p2 s2] (q & Hq & Hk); cbn [fst] in *.
    destruct H1 as [-> | (pe & -> & Hpe)].
    + exists q; split; [exact Hq | now constructor].
    + exists (pe :: q); split; [now rewrite Hq, <- app_assoc | now constructor].
Qed.

(** What a successful generic fetch ran: the feed parsed in the world the
    refresh leaves, its entries, and the loop over them. *)
Lemma generic_success_inv (feed_url : str) (items_count : Z) (task_id : option str)
    (st st' : State W) (r : FetchResult) :
  is_wechat_source feed_url = false ->
  fetch_feed env feed_url items_count task_id st = (Ok r, st') ->
  is_success r = true ->
  exists feed w2 entries p s,
    feedparser_parse env feed_url (snd (load_config env (world st))) = (Ok feed, w2)
    /\ feed_entries feed = Some entries
    /\ entries <> []
    /\ process_entries env feed feed_url items_count task_id entries ([], O)
         (mkState (refreshed_setting W env st) w2) = (Ok (p, s), st')
    /\ items r = Some (map RssItem p)
    /\ stats r = Some (mkStats (length entries) (length p) s).
Proof.
  intros Hg E Hs.
  pose proof (fetch_feed_success_inv W env feed_url items_count task_id st st' r E Hs) as Hb.
  unfold fetch_branch in Hb; rewrite Hg in Hb.
  unfold rss_branch, bind, call in Hb; cbn [world skip_processed] in Hb.
  destruct (feedparser_parse env feed_url (snd (load_config env (world st))))
    as [[feed|x] w2]; [|discriminate Hb].
  destruct (negb (feed_truthy feed)); [injection Hb as <- _; discriminate Hs|].
  destruct (feed_entries feed) as [[|e rest]|] eqn:Ee;
    try (injection Hb as <- _; discriminate Hs).
  destruct (process_entries env feed feed_url items_count task_id (e :: rest) ([], O) _)
    as [[[p s]|x] st2] eqn:El; [|discriminate Hb].
  injection Hb as <- <-.
  exists feed, w2, (e :: rest), p, s; repeat split; try assumption; try reflexivity.
  discriminate.
Qed.

(** X3. In a successful result of the generic branch the items are, one to
    one and in feed order, the items of some of the entries of the feed
    parsed: each carries the canonical form of its entry's id (or link),
    the entry's own title and link, the sanitized summary and content (the
    summary when the entry has no content), the feed title (or the URL) as
    source, and a publication date exactly when the entry has time fields.
    An entry without a title is never among them. *)
Theorem generic_items_follow_the_feed (feed_url : str) (items_count : Z)
    (task_id : option str) (st st' : State W) (r : FetchResult) :
  is_wechat_source feed_url = false ->
  fetch_feed env feed_url items_count task_id st = (Ok r, st') ->
  is_success r = true ->
  exists feed w2 entries ps,
    feedparser_parse env feed_url (snd (load_config env (world st))) = (Ok feed, w2)
    /\ feed_entries feed = Some entries
    /\ items r = Some (map RssItem ps)
    /\ kept_in_order (item_of feed feed_url) entries ps.
Proof.
  intros Hg E Hs.
  destruct (generic_success_inv feed_url items_count task_id st st' r Hg E Hs)
    as (feed & w2 & entries & p & s & Hp & He & _ & Hl & Hi & _).
  exists feed, w2, entries, p; repeat split; try assumption.
  destruct (process_entries_items feed feed_url items_count task_id entries [] O _ _ _ Hl)
    as (q & Hq & Hk); cbn in Hq; now subst q.
Qed.

(** ** Entries the loop did not reach *)

(** An entry has an identity when its id or its link is present and not
    empty. *)
Definition has_identity (e : Entry) : bool :=
  truthy_opt (entry_id e) || truthy_opt (entry_link e).

Definition without_identity (entries : list Entry) : nat :=
  length (filter (fun e => negb (has_identity e)) entries).

Lemma base_id_identity (e : Entry) :
  match (if truthy_opt (entry_id e) then entry_id e else entry_link e) with
  | Some base => truthy base
  | None => false
  end = has_identity e.
Proof.
  unfold has_identity.
  destruct (entry_id e) as [i|]; cbn [truthy_opt].
  - destruct (truthy i) eqn:Ei; cbn [orb]; [now rewrite Ei|].
    now destruct (entry_link e).
  - now destruct (entry_link e).
Qed.

(** A turn of the loop counts its entry once: as kept, as skipped, or as
    without identity. *)
Lemma process_entry_accounts feed feed_url task_id (e : Entry) p s :
  post (process_entry env feed feed_url task_id e (p, s))
       (fun acc' => (length (fst acc') + snd acc'
                     + (if has_identity e then 0 else 1)
                     = length p + s + 1)%nat).
Proof.
  rewrite <- base_id_identity; unfold process_entry.
  destruct (if truthy_opt (entry_id e) then entry_id e else entry_link e) as [base|];
    [|apply post_ret; cbn; lia].
  destruct (truthy base); cbn [negb]; [|apply post_ret; cbn; lia].
  eapply post_bind; [apply post_any|intros sk _].
  destruct (fst sk); [apply post_ret; cbn; lia|].
  do 4 (eapply post_bind; [apply post_any|intros ? _]).
  destruct (entry_title e); [|apply post_raise].
  eapply post_bind; [apply post_any|intros ? _].
  apply post_ret; cbn; rewrite length_app; cbn; lia.
Qed.

Lemma process_entries_accounts feed feed_url items_count task_id (entries : list Entry) :
  forall p s,
  post (process_entries env feed feed_url items_count task_id entries (p, s))
       (fun acc' => Z.of_nat (length (fst acc')) < items_count ->
                    (length (fst acc') + snd acc' + without_identity entries
                     = length p + s + length entries)%nat).
Proof.
  induction entries as [|e rest IH]; intros p s; cbn [process_entries fst].
  - apply post_ret; cbn; lia.
  - destruct (Z.of_nat (length p) <? items_count) eqn:Ec;
      [|apply post_ret; cbn [fst snd]; apply Z.ltb_ge in Ec; lia].
    eapply post_bind; [apply process_entry_accounts|].
    intros [p1 s1] H1; cbn [fst snd] in H1.
    eapply post_weaken; [apply IH|].
    intros [p2 s2] H2 Hlt; cbn [fst snd] in *; specialize (H2 Hlt).
    unfold without_identity in *; cbn [filter length].
    destruct (has_identity e); cbn [negb length]; lia.
Qed.

(** X4. A successful generic fetch either returns as many items as asked
    or has read the whole feed: then every entry is counted exactly once,
    as processed, as skipped, or as an entry without identity. *)
Theorem short_result_accounts_for_every_entry (feed_url : str) (items_count : Z)
    (task_id : option str) (st st' : State W) (r : FetchResult) :
  is_wechat_source feed_url = false ->
  fetch_feed env feed_url items_count task_id st = (Ok r, st') ->
  is_success r = true ->
  exists feed w2 entries sts,
    feedparser_parse env feed_url (snd (load_config env (world st))) = (Ok feed, w2)
    /\ feed_entries feed = Some entries
    /\ stats r = Some sts
    /\ (items_count <= Z.of_nat (processed sts)
        \/ (processed sts + skipped sts + without_identity entries
            = total_available sts)%nat).
Proof.
  intros Hg E Hs.
  destruct (generic_success_inv feed_url items_count task_id st st' r Hg E Hs)
    as (feed & w2 & entries & p & s & Hp & He & _ & Hl & _ & Hst).
  exists feed, w2, entries, (mkStats (length entries) (length p) s).
  repeat split; try assumption.
  destruct (Z.le_gt_cases items_count (Z.of_nat (length p))) as [Hle|Hlt]; [now left|right].
  apply (process_entries_accounts feed feed_url items_count task_id entries [] O _ _ _ Hl).
  cbn [fst]; lia.
Qed.

(** ** The chat-source items *)

(** The item kept for an item of the chat source: the same dictionary with
    the generated identifier under [article_id]. *)
Definition chat_item_of (feed_url : str) (e w : WechatEntry) : Prop :=
  exists article_id,
    wechat_article_id env feed_url e = Ok article_id
    /\ w = mkWechatEntry (w_title e) (w_link e) (w_content e) (w_source e)
                         (w_published e) (Some article_id).

Lemma process_wechat_entry_item feed_url task_id (e : WechatEntry) p s :
  post (process_wechat_entry env feed_url task_id e (p, s))
       (fun acc' => fst acc' = p
                    \/ exists w, fst acc' = p ++ [w] /\ chat_item_of feed_url e w).
Proof.
  unfold process_wechat_entry.
  eapply post_bind; [apply post_lift; intros a Ha; exact Ha|intros aid Haid].
  eapply post_bind; [apply post_any|intros sk _].
  destruct (fst sk); [apply post_ret; now left|].
  do 3 (eapply post_bind; [apply post_any|intros ? _]).
  apply post_ret; right; eexists; split; [reflexivity|].
  now exists aid.
Qed.

Lemma process_wechat_entries_items feed_url task_id (entries : list WechatEntry) :
  forall p s,
  post (process_wechat_entries env feed_url task_id entries (p, s))
       (fun acc' => exists q, fst acc' = p ++ q
                              /\ kept_in_order (chat_item_of feed_url) entries q).
Proof.
  induction entries as [|e rest IH]; intros p s; cbn [process_wechat_entries].
  - apply post_ret; exists []; split; [now rewrite app_nil_r | constructor].
  - eapply post_bind; [apply process_wechat_entry_item|].
    intros [p1 s1] H1; cbn [fst] in H1.
    eapply post_weaken; [apply IH|].
    intros [p2 s2] (q & Hq & Hk); cbn [fst] in *.
    destruct H1 as [-> | (w & -> & Hw)].
    + exists q; split; [exact Hq | now constructor].
    + exists (w :: q); split; [now rewrite Hq, <- app_assoc | now constructor].
Qed.

(** X5. In a successful result of the chat-source branch the items are, in
    the order of the chat source, some of the items it returned, each
    unchanged but for the key [article_id]; the title of [feed_info] is the
    source of the first item kept ("微信公众号" when it names none, "未知"
    when no item is kept). *)
Theorem chat_items_follow_the_source (feed_url : str) (items_count : Z)
    (task_id : option str) (st st' : State W) (r : FetchResult) :
  is_wechat_source feed_url = true ->
  fetch_feed env feed_url items_count task_id st = (Ok r, st') ->
  is_success r = true ->
  exists answer w2 its ws,
    parse_wechat_source env feed_url items_count (snd (load_config env (world st)))
    = (Ok answer, w2)
    /\ wr_items answer = Some its
    /\ items r = Some (map WechatItem ws)
    /\ kept_in_order (chat_item_of feed_url) its ws
    /\ option_map info_title (feed_info r)
       = Some match ws with
              | w :: _ => get_default (w_source w) (lit "微信公众号")
              | [] => lit "未知"
              end.
Proof.
  intros Hc E Hs.
  pose proof (fetch_feed_success_inv W env feed_url items_count task_id st st' r E Hs) as Hb.
  unfold fetch_branch in Hb; rewrite Hc in Hb.
  unfold wechat_branch, bind, call in Hb; cbn [world skip_processed] in Hb.
  destruct (parse_wechat_source env feed_url items_count (snd (load_config env (world st))))
    as [[wr|x] w2]; [|discriminate Hb].
  destruct (wr_status wr) as [sts|] eqn:Est; [|discriminate Hb].
  destruct (negb (Str.eqb sts (lit "success"))) eqn:En.
  { injection Hb as <- _; unfold is_success, wechat_result_as_is in Hs; cbn in Hs.
    rewrite Est in Hs; apply negb_true_iff in En; congruence. }
  destruct (wr_items wr) as [its|] eqn:Ei; [|discriminate Hb].
  destruct (process_wechat_entries env feed_url task_id its ([], O) _)
    as [[[p s]|x] st2] eqn:El; [|discriminate Hb].
  injection Hb as <- _.
  destruct (process_wechat_entries_items feed_url task_id its [] O _ _ _ El)
    as (q & Hq & Hk); cbn in Hq; subst q.
  exists wr, w2, its, p; repeat split; assumption || reflexivity.
Qed.

(** ** A source already delivered *)

Fixpoint identified (entries : list Entry) : nat :=
  match entries with
  | [] => O
  | e :: rest => ((if has_identity e then 1 else 0) + identified rest)%nat
  end.

(** The task history about this feed and this task: asked in feed order,
    from the world [w] on, about each entry of the feed that has an
    identity, it answers without fault that the article was discarded for
    [tid], or that it was not discarded but sent for [tid].  Nothing is
    said of other articles, other tasks or other worlds. *)
Fixpoint all_delivered (tid : str) (entries : list Entry) (w : W) : Prop :=
  match entries with
  | [] => True
  | e :: rest =>
    match (if truthy_opt (entry_id e) then entry_id e else entry_link e) with
    | Some base =>
      if truthy base then
        let article_id := normalize_article_id env base in
        (exists w1,
           is_article_discarded_for_task env article_id tid w = (Ok true, w1)
           /\ all_delivered tid rest w1)
        \/ (exists w1 w2,
              is_article_discarded_for_task env article_id tid w = (Ok false, w1)
              /\ is_article_sent_for_task env article_id tid w1 = (Ok true, w2)
              /\ all_delivered tid rest w2)
      else all_delivered tid rest w
    | None => all_delivered tid rest w
    end
  end.

Lemma process_entries_all_delivered feed feed_url items_count tid
    (entries : list Entry) :
  truthy tid = true -> 0 < items_count ->
  forall s st,
  skip_processed st = true ->
  all_delivered tid entries (world st) ->
  exists st1,
    process_entries env feed feed_url items_count (Some tid) entries ([], s) st
    = (Ok ([], (s + identified entries)%nat), st1)
    /\ skip_processed st1 = true.
Proof.
  intros Ht Hn; induction entries as [|e rest IH]; intros s st Hs Hall;
    cbn [process_entries identified fst length].
  - exists st; split; [unfold ret; now rewrite Nat.add_0_r | exact Hs].
  - destruct (Z.ltb_spec (Z.of_nat 0) items_count) as [_|Hge]; [|cbn in Hge; lia].
    unfold bind at 1.
    assert (Hturn : exists st1,
               process_entry env feed feed_url (Some tid) e ([], s) st
               = (Ok ([], (s + (if has_identity e then 1 else 0))%nat), st1)
               /\ skip_processed st1 = true
               /\ all_delivered tid rest (world st1)).
    { rewrite <- base_id_identity; unfold process_entry.
      cbn [all_delivered] in Hall.
      destruct (if truthy_opt (entry_id e) then entry_id e else entry_link e) as [base|];
        [|exists st; repeat split; [unfold ret; now rewrite Nat.add_0_r | exact Hs | exact Hall]].
      destruct (truthy base); cbn [negb];
        [|exists st; repeat split; [unfold ret; now rewrite Nat.add_0_r | exact Hs | exact Hall]].
      unfold bind at 1.
      rewrite (skip_check_enabled env (normalize_article_id env base) tid st Hs Ht).
      unfold gate_outcome, after.
      destruct Hall as [(w1 & -> & Hrest) | (w1 & w2 & -> & -> & Hrest)];
        eexists; (split; [cbn [fst]; unfold ret; now rewrite Nat.add_1_r|]);
        split; [exact Hs | exact Hrest | exact Hs | exact Hrest]. }
    destruct Hturn as (st1 & -> & Hs1 & Hrest).
    destruct (IH (s + (if has_identity e then 1 else 0))%nat st1 Hs1 Hrest)
      as (st2 & -> & Hs2).
    exists st2; split; [|exact Hs2].
    now rewrite Nat.add_assoc.
Qed.

(** X6. A generic source of which the task history reports every
    identified entry as already discarded or sent for the task of the
    call: with the configuration turning [skip_processed_articles] on, a
    task id and [items_count] at least 1, the fetch succeeds with no item,
    and [skipped] is the number of entries that have an identity (entries
    without one are in neither counter). *)
Theorem delivered_source_is_all_skipped (feed_url : str) (items_count : Z) (tid : str)
    (st : State W) (w1 w2 : W) (feed : ParsedFeed) (entries : list Entry) :
  is_wechat_source feed_url = false ->
  truthy tid = true -> 0 < items_count ->
  load_config env (world st) = (Ok true, w1) ->
  feedparser_parse env feed_url w1 = (Ok feed, w2) ->
  feed_truthy feed = true -> feed_entries feed = Some entries -> entries <> [] ->
  all_delivered tid entries w2 ->
  exists r st',
    fetch_feed env feed_url items_count (Some tid) st = (Ok r, st')
    /\ is_success r = true
    /\ items r = Some []
    /\ stats r = Some (mkStats (length entries) O (identified entries)).
Proof.
  intros Hg Ht Hn Hcfg Hparse Hft Hfe Hne Hall.
  unfold fetch_feed, try_except, fetch_feed_body, bind.
  destruct (refresh_settings_state W env st) as [[v ->]|[e0 [_ [He0 _]]]];
    [|rewrite Hcfg in He0; discriminate He0].
  unfold refreshed_setting; rewrite Hcfg, Hg; cbn [fst snd].
  unfold rss_branch, bind, call; cbn [world skip_processed].
  rewrite Hparse, Hft, Hfe; cbn [negb].
  destruct (process_entries_all_delivered feed feed_url items_count tid entries
              Ht Hn O (mkState true w2) eq_refl Hall) as (st1 & Hl & _).
  destruct entries as [|e rest]; [now elim Hne|].
  rewrite Hl; eexists _, _; split; [reflexivity|]; repeat split.
Qed.

End Items.

(* ================================================================== *)
(** * The shape of sanitized text and of identifiers *)
(* ================================================================== *)

Section SanitizedText.

Import CleanFacts.

Variable soup : str -> result str.

(** X7. Whenever the parser accepts the input, the sanitized text is made
    of paragraphs joined by one empty line, and each paragraph is a clean
    line: not empty, without whitespace at either end, without a line
    boundary, and unchanged by collapsing whitespace runs, so single spaces
    are its only whitespace. *)
Theorem clean_html_gives_clean_paragraphs (html_content raw_text text : str) :
  soup (Re.sub_em html_content) = Ok raw_text ->
  _clean_html soup html_content = Ok text ->
  exists paragraphs_ : list str,
    text = join paragraph_break paragraphs_
    /\ Forall clean_line paragraphs_
    /\ Forall (Forall (fun c => isspace c = true -> c = 0x20%N)) paragraphs_.
Proof.
  intros Hp Hc.
  destruct (truthy html_content) eqn:Et.
  - rewrite (clean_html_parsed soup html_content raw_text Et Hp) in Hc.
    injection Hc as <-.
    exists (processed_lines (splitlines raw_text)); split; [reflexivity|].
    pose proof (processed_lines_clean (splitlines raw_text)) as Hcl.
    split; [exact Hcl|].
    eapply Forall_impl; [|exact Hcl].
    intros l (_ & _ & Hw & _); rewrite <- Hw; apply sub_ws_from_spaces.
  - destruct html_content; [|discriminate Et].
    injection Hc as <-; exists []; repeat constructor.
Qed.

End SanitizedText.

Module EmFacts.

Local Open Scope N_scope.

(** No character of the text is ["<"]. *)
Definition no_lt (s : str) : Prop := Forall (fun c => c <> 0x3C) s.

Lemma match_em_not_lt (c : N) (s : str) : c <> 0x3C -> Re.match_em (c :: s) = None.
Proof.
  intros Hc; unfold Re.match_em.
  change (startswith (lit "<em>") (c :: s))
    with ((0x3C =? c) && startswith (lit "em>") s).
  destruct (N.eqb_spec 0x3C c) as [E|_]; [now elim Hc | reflexivity].
Qed.

Lemma sub_em_from_no_lt (a rest : str) :
  no_lt a -> Re.sub_em_from 0 (a ++ rest) = a ++ Re.sub_em_from 0 rest.
Proof.
  induction 1 as [|c a Hc Ha IH]; [reflexivity|].
  cbn [app Re.sub_em_from]; rewrite (match_em_not_lt c _ Hc); now rewrite IH.
Qed.

Lemma span_not_lt_app (t rest : str) :
  no_lt t -> Re.span_not_lt (t ++ 0x3C :: rest) = (t, 0x3C :: rest).
Proof.
  induction 1 as [|c t Hc Ht IH]; [reflexivity|].
  cbn [app Re.span_not_lt].
  destruct (N.eqb_spec c 0x3C) as [E|_]; [now elim Hc | now rewrite IH].
Qed.

Lemma sub_em_from_skip (x rest : str) :
  Re.sub_em_from (length x) (x ++ rest) = Re.sub_em_from 0 rest.
Proof. induction x as [|c x IH]; [reflexivity | exact IH]. Qed.

End EmFacts.

Import EmFacts.

(** X8. The emphasis pre-pass leaves a text without ["<"] as it is, and
    splices the first emphasised run into the text around it without adding
    a character: for texts [a] and [t] without ["<"], the pre-pass of
    [a <em>t</em> b] is [a], [t] and the pre-pass of [b]. *)
Theorem sub_em_splices (a t b : str) :
  no_lt a -> no_lt t ->
  Re.sub_em a = a
  /\ Re.sub_em (a ++ lit "<em>" ++ t ++ lit "</em>" ++ b) = a ++ t ++ Re.sub_em b.
Proof.
  intros Ha Ht; unfold Re.sub_em; split.
  - rewrite <- (app_nil_r a) at 1; rewrite (sub_em_from_no_lt a [] Ha).
    now rewrite app_nil_r.
  - rewrite (sub_em_from_no_lt a _ Ha); f_equal.
    change (lit "<em>" ++ t ++ lit "</em>" ++ b)
      with (0x3C%N :: lit "em>" ++ t ++ lit "</em>" ++ b).
    cbn [Re.sub_em_from].
    assert (Hm : Re.match_em (0x3C%N :: lit "em>" ++ t ++ lit "</em>" ++ b) = Some t).
    { unfold Re.match_em.
      change (startswith (lit "<em>") (0x3C%N :: lit "em>" ++ t ++ lit "</em>" ++ b))
        with true.
      change (skipn 4 (0x3C%N :: lit "em>" ++ t ++ lit "</em>" ++ b))
        with (t ++ 0x3C%N :: lit "/em>" ++ b).
      rewrite (span_not_lt_app t _ Ht); reflexivity. }
    rewrite Hm; f_equal.
    replace (3 + length t + 5)%nat with (length (lit "em>" ++ t ++ lit "</em>"))
      by (rewrite !length_app; change (length (lit "em>")) with 3%nat;
          change (length (lit "</em>")) with 5%nat; lia).
    rewrite <- (sub_em_from_skip (lit "em>" ++ t ++ lit "</em>") b).
    now rewrite <- !app_assoc.
Qed.

Module HexFacts.

Local Open Scope N_scope.

(** A lower-case hexadecimal digit. *)
Definition is_hex_digit (c : N) : bool :=
  ((0x30 <=? c) && (c <=? 0x39)) || ((0x61 <=? c) && (c <=? 0x66)).

Lemma le_bytes_length (k : nat) (n : N) : length (Hashlib.le_bytes k n) = k.
Proof. revert n; induction k as [|k IH]; intros n; cbn; [reflexivity | now rewrite IH]. Qed.

Lemma le_bytes_small (k : nat) (n : N) : Forall (fun b => b < 256) (Hashlib.le_bytes k n).
Proof.
  revert n; induction k as [|k IH]; intros n; cbn; constructor; [|apply IH].
  apply N.mod_lt; discriminate.
Qed.

Lemma md5_length (bs : bytes) : length (Hashlib.md5 bs) = 16%nat.
Proof.
  unfold Hashlib.md5.
  destruct (Hashlib.md5_blocks _ _ _) as [[[a b] c] d].
  now rewrite !length_app, !le_bytes_length.
Qed.

Lemma md5_small (bs : bytes) : Forall (fun b => b < 256) (Hashlib.md5 bs).
Proof.
  unfold Hashlib.md5.
  destruct (Hashlib.md5_blocks _ _ _) as [[[a b] c] d].
  repeat (apply Forall_app; split); apply le_bytes_small.
Qed.

Lemma digit_char_hex (d : N) : d < 16 -> is_hex_digit (digit_char d) = true.
Proof.
  intros Hd; unfold is_hex_digit, digit_char.
  destruct (N.ltb_spec d 10);
    rewrite orb_true_iff, !andb_true_iff, !N.leb_le; lia.
Qed.

Lemma hexdigest_shape (bytes_ : bytes) :
  Forall (fun b => b < 256) bytes_ ->
  length (flat_map Hashlib.hex_byte bytes_) = (2 * length bytes_)%nat
  /\ forallb is_hex_digit (flat_map Hashlib.hex_byte bytes_) = true.
Proof.
  induction 1 as [|b bs Hb Hbs [IHl IHh]]; [now split|].
  cbn [flat_map Hashlib.hex_byte app length forallb]; rewrite IHl, IHh; split; [lia|].
  rewrite !digit_char_hex; [reflexivity| |].
  - apply N.mod_lt; discriminate.
  - apply N.Div0.div_lt_upper_bound; exact Hb.
Qed.

Lemma md5_hex_shape (s h : str) :
  md5_hex s = Ok h -> length h = 32%nat /\ forallb is_hex_digit h = true.
Proof.
  unfold md5_hex, Hashlib.md5_hexdigest.
  destruct (encode_utf8 s) as [bs|x]; cbn [result_bind]; [|discriminate].
  intros H; injection H as <-.
  destruct (hexdigest_shape (Hashlib.md5 bs) (md5_small bs)) as [Hl Hh].
  now rewrite Hl, md5_length.
Qed.

End HexFacts.

Import HexFacts.

(** X9. Every identifier generated for a chat-source item has the same
    shape: the seven characters "wechat_" followed by exactly 32 lower-case
    hexadecimal digits, whatever the link, the title and the
    canonicalisation. *)
Theorem wechat_article_id_shape (W : Type) (env : Collaborators W) (feed_url : str)
    (entry : WechatEntry) (article_id : str) :
  wechat_article_id env feed_url entry = Ok article_id ->
  exists digest,
    article_id = lit "wechat_" ++ digest
    /\ length digest = 32%nat
    /\ forallb is_hex_digit digest = true
    /\ length article_id = 39%nat.
Proof.
  unfold wechat_article_id.
  destruct (md5_hex _) as [h|x] eqn:Eh; cbn [result_bind]; [|discriminate].
  intros H; injection H as <-.
  destruct (md5_hex_shape _ h Eh) as [Hl Hh].
  exists h; split; [reflexivity|]; split; [exact Hl|]; split; [exact Hh|].
  cbn [length]; now rewrite Hl.
Qed.

(* ================================================================== *)
(** * From a date to its ordinal and back *)
(* ================================================================== *)

Module CalendarFacts.

Local Open Scope Z_scope.

(** A check on [fuel] consecutive integers, from [r] on. *)
Fixpoint all_from (f : Z -> bool) (fuel : nat) (r : Z) : bool :=
  match fuel with
  | O => true
  | S fuel' => f r && all_from f fuel' (r + 1)
  end.

Lemma all_from_spec (f : Z -> bool) (fuel : nat) :
  forall r, all_from f fuel r = true ->
  forall x, r <= x < r + Z.of_nat fuel -> f x = true.
Proof.
  induction fuel as [|fuel IH]; intros r H x Hx; [lia|].
  cbn [all_from] in H; apply andb_true_iff in H as [H0 H1].
  destruct (Z.eq_dec x r) as [->|Hne]; [exact H0|].
  apply (IH (r + 1) H1); lia.
Qed.

Definition date_eqb (a b : Z * Z * Z) : bool :=
  let '(y, m, d) := a in let '(y', m', d') := b in
  (y =? y') && (m =? m') && (d =? d').

(** The check made on the [i]-th triple of a year of the first cycle, a
    month, and a day up to 31: when it is a date, its ordinal lies in the
    cycle and is the ordinal of no other date. *)
Definition date_index_ok (i : Z) : bool :=
  let y := i / 372 + 1 in
  let m := (i mod 372) / 31 + 1 in
  let d := i mod 31 + 1 in
  if d <=? _days_in_month y m then
    let n := _ymd2ord y m d in
    (1 <=? n) && (n <=? _DI400Y) && date_eqb (ord2ymd_cycle 0 (n - 1)) (y, m, d)
  else true.

Lemma date_indexes_ok : all_from date_index_ok (Z.to_nat (400 * 372)) 0 = true.
Proof. vm_compute; reflexivity. Qed.

Lemma days_in_month_le_31 (y m : Z) : 1 <= m <= 12 -> _days_in_month y m <= 31.
Proof.
  intros Hm; unfold _days_in_month.
  assert (H : m = 1 \/ m = 2 \/ m = 3 \/ m = 4 \/ m = 5 \/ m = 6 \/ m = 7 \/ m = 8
              \/ m = 9 \/ m = 10 \/ m = 11 \/ m = 12) by lia.
  destruct (_is_leap y); repeat destruct H as [H|H]; subst m;
    apply Z.leb_le; vm_compute; reflexivity.
Qed.

(** In the first cycle a date has its ordinal in the cycle and is the date
    of that ordinal. *)
Lemma first_cycle_date (y m d : Z) :
  1 <= y <= 400 -> 1 <= m <= 12 -> 1 <= d <= _days_in_month y m ->
  1 <= _ymd2ord y m d <= _DI400Y
  /\ ord2ymd_cycle 0 (_ymd2ord y m d - 1) = (y, m, d).
Proof.
  intros Hy Hm Hd.
  pose proof (days_in_month_le_31 y m Hm) as H31.
  set (i := (y - 1) * 372 + ((m - 1) * 31 + (d - 1))).
  assert (Hq : i / 372 = y - 1)
    by (symmetry; apply (Z.div_unique i 372 (y - 1) ((m - 1) * 31 + (d - 1))); lia).
  assert (Hr : i mod 372 = (m - 1) * 31 + (d - 1))
    by (symmetry; apply (Z.mod_unique i 372 (y - 1) ((m - 1) * 31 + (d - 1))); lia).
  assert (Hq2 : (i mod 372) / 31 = m - 1)
    by (rewrite Hr; symmetry; apply (Z.div_unique _ 31 (m - 1) (d - 1)); lia).
  assert (Hr2 : i mod 31 = d - 1)
    by (symmetry; apply (Z.mod_unique i 31 ((y - 1) * 12 + (m - 1)) (d - 1)); lia).
  assert (Hi : 0 <= i < 0 + Z.of_nat (Z.to_nat (400 * 372))) by lia.
  pose proof (all_from_spec date_index_ok _ 0 date_indexes_ok i Hi) as Hok.
  unfold date_index_ok in Hok; cbv zeta in Hok.
  rewrite Hq, Hq2, Hr2 in Hok.
  replace (y - 1 + 1) with y in Hok by lia.
  replace (m - 1 + 1) with m in Hok by lia.
  replace (d - 1 + 1) with d in Hok by lia.
  destruct (Z.leb_spec d (_days_in_month y m)) as [_|Hgt]; [|lia].
  apply andb_true_iff in Hok as [Hok He]; apply andb_true_iff in Hok as [H1 H2].
  apply Z.leb_le in H1, H2; split; [lia|].
  destruct (ord2ymd_cycle 0 (_ymd2ord y m d - 1)) as [[y' m'] d'].
  unfold date_eqb in He.
  apply andb_true_iff in He as [He Hd']; apply andb_true_iff in He as [Hy' Hm'].
  apply Z.eqb_eq in Hy', Hm', Hd'; now subst.
Qed.

(** The date of the ordinal of a date is that date. *)
Lemma ymd2ord_ord2ymd (y m d : Z) :
  valid_date y m d -> _ord2ymd (_ymd2ord y m d) = (y, m, d).
Proof.
  unfold valid_date, MINYEAR, MAXYEAR; intros (Hy & Hm & Hd).
  set (k := (y - 1) / 400); set (y0 := (y - 1) mod 400 + 1).
  assert (Hdm : y - 1 = 400 * k + (y - 1) mod 400) by (apply Z.div_mod; discriminate).
  assert (Hy0 : 0 <= (y - 1) mod 400 < 400) by (apply Z.mod_pos_bound; reflexivity).
  assert (Ey : y = y0 + 400 * k) by (unfold y0; lia).
  rewrite Ey, days_in_month_shift in Hd.
  destruct (first_cycle_date y0 m d ltac:(unfold y0; lia) Hm Hd) as [Hn Hc].
  rewrite Ey, ymd2ord_shift, ord2ymd_as_cycle.
  set (n0 := _ymd2ord y0 m d) in *.
  replace ((n0 + _DI400Y * k - 1) / _DI400Y) with k
    by (apply (Z.div_unique _ _DI400Y k (n0 - 1)); unfold _DI400Y in *; lia).
  replace ((n0 + _DI400Y * k - 1) mod _DI400Y) with (n0 - 1)
    by (apply (Z.mod_unique _ _DI400Y k (n0 - 1)); unfold _DI400Y in *; lia).
  rewrite ord2ymd_cycle_shift, Hc; reflexivity.
Qed.

(** Two values of [datetime] that denote the same instant in the same zone,
    with the same microseconds, are the same value. *)
Lemma same_instant_same_value (a b : datetime) :
  valid a -> valid b ->
  utc_seconds a 0 = utc_seconds b 0 ->
  microsecond a = microsecond b -> tzinfo a = tzinfo b ->
  a = b.
Proof.
  intros (Hya & Hma & Hda & Hha & Hmia & Hsa) (Hyb & Hmb & Hdb & Hhb & Hmib & Hsb).
  unfold utc_seconds; intros Hi Hus Htz.
  assert (Ho : _ymd2ord (year a) (month a) (day a) = _ymd2ord (year b) (month b) (day b))
    by lia.
  assert (Hdate : (year a, month a, day a) = (year b, month b, day b)).
  { rewrite <- (ymd2ord_ord2ymd (year a) (month a) (day a)) by (repeat split; lia).
    rewrite <- (ymd2ord_ord2ymd (year b) (month b) (day b)) by (repeat split; lia).
    now rewrite Ho. }
  injection Hdate as Ey Em Ed.
  assert (Eh : hour a = hour b) by lia.
  assert (Emi : minute a = minute b) by lia.
  assert (Es : second a = second b) by lia.
  destruct a, b; cbn in *; now subst.
Qed.

End CalendarFacts.

Import CalendarFacts.

(** What [_convert_to_local_time] does to a value of [datetime]: the zone
    it is read in, and the outcome of the conversion. *)
Lemma convert_outcome (local_tz : Z) (d : datetime) :
  valid d ->
  let instant := utc_seconds d (match tzinfo d with Some off => off | None => 0 end) in
  if representable instant && representable (instant + local_tz)
  then exists r, _convert_to_local_time local_tz (Some d) = Ok (Some r)
                 /\ tzinfo r = Some local_tz /\ utc_seconds r local_tz = instant
                 /\ microsecond r = microsecond d /\ valid r
  else _convert_to_local_time local_tz (Some d) = Raise OverflowError.
Proof.
  intros Hv; cbv zeta; unfold _convert_to_local_time.
  destruct (tzinfo d) as [off|] eqn:Etz.
  - pose proof (astimezone_spec d off local_tz Hv Etz) as H.
    destruct (representable (utc_seconds d off) && representable (utc_seconds d off + local_tz)).
    + destruct H as (r & -> & H); now exists r.
    + now rewrite H.
  - assert (Hv' : valid (replace_tzinfo d UTC)) by exact Hv.
    pose proof (astimezone_spec (replace_tzinfo d UTC) 0 local_tz Hv' eq_refl) as H.
    replace (utc_seconds (replace_tzinfo d UTC) 0) with (utc_seconds d 0) in H by reflexivity.
    destruct (representable (utc_seconds d 0) && representable (utc_seconds d 0 + local_tz)).
    + destruct H as (r & -> & H); now exists r.
    + now rewrite H.
Qed.

(** X10. Conversions compose: converting to one zone and then converting
    the result to a second zone gives what converting directly to the
    second zone gives.  In particular a value already converted is
    returned unchanged by a second conversion to the same zone. *)
Theorem convert_to_local_time_composes (tz1 tz2 : Z) (d r1 r2 : datetime) :
  valid d ->
  _convert_to_local_time tz1 (Some d) = Ok (Some r1) ->
  _convert_to_local_time tz2 (Some d) = Ok (Some r2) ->
  _convert_to_local_time tz2 (Some r1) = Ok (Some r2)
  /\ _convert_to_local_time tz1 (Some r1) = Ok (Some r1).
Proof.
  intros Hv H1 H2.
  pose proof (convert_outcome tz1 d Hv) as O1; cbv zeta in O1.
  pose proof (convert_outcome tz2 d Hv) as O2; cbv zeta in O2.
  set (instant := utc_seconds d match tzinfo d with Some off => off | None => 0 end) in *.
  destruct (representable instant) eqn:Ei; cbn [andb] in O1, O2;
    [|rewrite O1 in H1; discriminate H1].
  destruct (representable (instant + tz1)) eqn:E1; [|rewrite O1 in H1; discriminate H1].
  destruct (representable (instant + tz2)) eqn:E2; [|rewrite O2 in H2; discriminate H2].
  destruct O1 as (r1' & Hr1 & T1 & I1 & U1 & V1); rewrite Hr1 in H1; injection H1 as ->.
  destruct O2 as (r2' & Hr2 & T2 & I2 & U2 & V2); rewrite Hr2 in H2; injection H2 as ->.
  assert (Hagain : forall tz r,
             representable (instant + tz) = true ->
             tzinfo r = Some tz -> utc_seconds r tz = instant ->
             microsecond r = microsecond d -> valid r ->
             _convert_to_local_time tz (Some r1) = Ok (Some r)).
  { intros tz r Er Tr Ir Ur Vr.
    pose proof (convert_outcome tz r1 V1) as O; cbv zeta in O.
    rewrite T1, I1, Ei, Er in O; cbn [andb] in O.
    destruct O as (r' & -> & T' & I' & U' & V'); do 2 f_equal.
    apply same_instant_same_value; try assumption.
    - unfold utc_seconds in *; lia.
    - congruence.
    - congruence. }
  split; [now apply Hagain | now apply Hagain].
Qed.

(* ================================================================== *)
(** * [RssParser.fetch_multiple_feeds] *)
(* ================================================================== *)

(** A feed configuration, a dictionary: the keys [url] and [items_count]
    may be missing. *)
Record FeedConfig : Type := mkFeedConfig {
  config_url : option str;
  config_items_count : option Z
}.

(** [results[url] = result] on a dictionary kept as the list of its
    entries in insertion order: a key already present keeps its place. *)
Fixpoint dict_set (url : str) (result_ : FetchResult) (results : list (str * FetchResult))
  : list (str * FetchResult) :=
  match results with
  | [] => [(url, result_)]
  | (k, v) :: rest =>
    if Str.eqb k url then (url, result_) :: rest
    else (k, v) :: dict_set url result_ rest
  end.

Section Batch.

Variable W : Type.
Variable env : Collaborators W.

(** [time.sleep(0.5)]: the world half a second later; the pause can be
    interrupted, and then raises. *)
Variable sleep : W -> result unit * W.

Local Open Scope pipeline_scope.

(** The loop of [fetch_multiple_feeds], from the configurations left and
    the results so far. *)
Fixpoint fetch_multiple_feeds_from (feed_configs : list FeedConfig)
    (task_id : option str) (results : list (str * FetchResult))
  : M W (list (str * FetchResult)) :=
  match feed_configs with
  | [] => ret results
  | config_ :: rest =>
    let url := config_url config_ in
    let items_count := match config_items_count config_ with Some n => n | None => 10 end in
    match url with
    | Some url =>
      if negb (truthy url) then fetch_multiple_feeds_from rest task_id results
      else
        result_ <- fetch_feed env url items_count task_id ;;
        let results := dict_set url result_ results in
        call sleep ;;;
        fetch_multiple_feeds_from rest task_id results
    | None => fetch_multiple_feeds_from rest task_id results
    end
  end.

(** [fetch_multiple_feeds(feed_configs, task_id, recipients)]; the
    recipients are only passed on to be logged. *)
Definition fetch_multiple_feeds (feed_configs : list FeedConfig) (task_id : option str)
  : M W (list (str * FetchResult)) :=
  fetch_multiple_feeds_from feed_configs task_id [].

(** The URLs a batch fetches: those present and not empty. *)
Definition configured (feed_configs : list FeedConfig) (url : str) : Prop :=
  exists c, In c feed_configs /\ config_url c = Some url /\ truthy url = true.

Lemma dict_set_keys (url : str) (r : FetchResult) (results : list (str * FetchResult)) :
  forall k, In k (map fst (dict_set url r results)) <-> k = url \/ In k (map fst results).
Proof.
  induction results as [|[k0 v0] rest IH]; intros k; cbn [dict_set map fst In].
  - intuition.
  - destruct (Str.eqb k0 url) eqn:E; cbn [map fst In].
    + apply StrFacts.eqb_eq in E; subst k0; intuition.
    + rewrite IH; intuition.
Qed.

Lemma dict_set_nodup (url : str) (r : FetchResult) (results : list (str * FetchResult)) :
  NoDup (map fst results) -> NoDup (map fst (dict_set url r results)).
Proof.
  induction results as [|[k0 v0] rest IH]; cbn [dict_set map fst]; intros Hn.
  - repeat constructor; intros [].
  - inversion Hn as [|? ? Hnot Hrest]; subst.
    destruct (Str.eqb k0 url) eqn:E; cbn [map fst].
    + apply StrFacts.eqb_eq in E; subst k0; now constructor.
    + constructor; [|now apply IH].
      rewrite dict_set_keys; intros [->|Hin]; [|now apply Hnot].
      now rewrite StrFacts.eqb_refl in E.
Qed.

(** A fault that leaves [fetch_feed] is outside [Exception]. *)
Lemma fetch_feed_raises_outside_Exception (feed_url : str) (items_count : Z)
    (task_id : option str) (st st' : State W) (e : Exception) :
  fetch_feed env feed_url items_count task_id st = (Raise e, st') ->
  isinstance_Exception e = false.
Proof.
  unfold fetch_feed, try_except.
  destruct (fetch_feed_body env feed_url items_count task_id st) as [[r|e0] st0];
    [discriminate|].
  destruct (isinstance_Exception e0) eqn:E0; [discriminate|].
  now intros H; injection H as <- _.
Qed.

(** The two ways a batch stops, having no handler of its own: a fetch of
    a configured URL let through a fault outside [Exception], or the
    pause after a fetch raised. *)
Definition stopped_by (feed_configs : list FeedConfig) (task_id : option str)
    (e : Exception) : Prop :=
  (isinstance_Exception e = false
   /\ exists c url st0 st1,
        In c feed_configs /\ config_url c = Some url /\ truthy url = true
        /\ fetch_feed env url
             (match config_items_count c with Some n => n | None => 10 end)
             task_id st0 = (Raise e, st1))
  \/ (exists w w1, sleep w = (Raise e, w1)).

Lemma stopped_by_later (c : FeedConfig) (rest : list FeedConfig) (task_id : option str)
    (e : Exception) :
  stopped_by rest task_id e -> stopped_by (c :: rest) task_id e.
Proof.
  intros [(He & c' & url & st0 & st1 & Hin & H) | H]; [left | now right].
  split; [exact He|]; exists c', url, st0, st1; split; [now right | exact H].
Qed.

Lemma fetch_multiple_feeds_from_keys (feed_configs : list FeedConfig) (task_id : option str) :
  forall results st,
  NoDup (map fst results) ->
  match fetch_multiple_feeds_from feed_configs task_id results st with
  | (Ok results', _) =>
    NoDup (map fst results')
    /\ (forall url, In url (map fst results')
                    <-> In url (map fst results) \/ configured feed_configs url)
  | (Raise e, _) => stopped_by feed_configs task_id e
  end.
Proof.
  induction feed_configs as [|c rest IH]; intros results st Hn;
    cbn [fetch_multiple_feeds_from].
  - unfold ret; split; [exact Hn|].
    intros url; split; [now left | intros [H | (c & [] & _)]; exact H].
  - assert (Hskip :
      config_url c = None \/ (exists u, config_url c = Some u /\ truthy u = false) ->
      match fetch_multiple_feeds_from rest task_id results st with
      | (Ok results', _) =>
        NoDup (map fst results')
        /\ (forall url, In url (map fst results')
                        <-> In url (map fst results) \/ configured (c :: rest) url)
      | (Raise e, _) => stopped_by (c :: rest) task_id e
      end).
    { intros Hc; specialize (IH results st Hn).
      destruct (fetch_multiple_feeds_from rest task_id results st) as [[results'|e] st'];
        [|now apply stopped_by_later].
      destruct IH as [Hn' Hk]; split; [exact Hn'|].
      intros url; rewrite Hk; split.
      - intros [H | (c' & Hin & Hu)]; [now left | right; exists c'; split; [now right | exact Hu]].
      - intros [H | (c' & [<- | Hin] & Hu & Ht)]; [now left | | right; now exists c'].
        destruct Hc as [Hc | (u & Hc & Hf)]; congruence. }
    destruct (config_url c) as [url|] eqn:Eu; [|apply Hskip; now left].
    destruct (truthy url) eqn:Et; cbn [negb]; [|apply Hskip; right; now exists url].
    clear Hskip; unfold bind at 1.
    destruct (fetch_feed env url
                (match config_items_count c with Some n => n | None => 10 end)
                task_id st) as [[r|e] st1] eqn:Ef.
    + cbv zeta; unfold bind at 1, call at 1.
      destruct (sleep (world st1)) as [[[]|e] w2] eqn:Es;
        [|right; now exists (world st1), w2].
      specialize (IH (dict_set url r results) (mkState (skip_processed st1) w2)
                     (dict_set_nodup url r results Hn)).
      destruct (fetch_multiple_feeds_from rest task_id (dict_set url r results)
                  (mkState (skip_processed st1) w2)) as [[results'|e] st'];
        [|now apply stopped_by_later].
      destruct IH as [Hn' Hk]; split; [exact Hn'|].
      intros u; split.
      * intros H; apply Hk in H as [H | (c' & Hin & Hu)].
        -- apply dict_set_keys in H as [-> | H];
             [right; exists c; auto with datatypes | now left].
        -- right; exists c'; split; [now right | exact Hu].
      * intros [H | (c' & [<- | Hin] & Hu & Ht)]; apply Hk.
        -- left; apply dict_set_keys; now right.
        -- left; apply dict_set_keys; left; congruence.
        -- right; now exists c'.
    + left; split; [exact (fetch_feed_raises_outside_Exception _ _ _ _ _ _ Ef)|].
      exists c, url, st, st1; repeat split; auto with datatypes.
Qed.

(** X11. A batch that returns maps exactly the URLs configured (present
    and not empty), each once: a source whose fetch fails has its entry
    like the others and does not stop the sources after it, and
    configurations without a URL are passed over.  The batch has no
    handler of its own: it ends without a result only when a fetch lets
    through a fault outside [Exception] (an interrupt, an exit request) or
    when the pause after a fetch raises. *)
Theorem fetch_multiple_feeds_covers_every_url (feed_configs : list FeedConfig)
    (task_id : option str) (st : State W) :
  match fetch_multiple_feeds feed_configs task_id st with
  | (Ok results, _) =>
    NoDup (map fst results)
    /\ (forall url, In url (map fst results) <-> configured feed_configs url)
  | (Raise e, _) => stopped_by feed_configs task_id e
  end.
Proof.
  pose proof (fetch_multiple_feeds_from_keys feed_configs task_id [] st (NoDup_nil _)) as H.
  unfold fetch_multiple_feeds.
  destruct (fetch_multiple_feeds_from feed_configs task_id [] st) as [[results|e] st'];
    [|exact H].
  destruct H as [Hn Hk]; split; [exact Hn|].
  intros url; rewrite Hk; split; [intros [[] | H]; exact H | now right].
Qed.

End Batch.

Section ResultShape.

Variable W : Type.
Variable env : Collaborators W.

(** The two shapes [fetch_feed] builds itself. *)
Definition built_result (r : FetchResult) : Prop :=
  (exists its info sts, r = success_result its info sts)
  \/ (exists msg, r = fail_result msg).

(** X12. For a source of the generic branch, whatever [fetch_feed]
    returns is one of the two dictionaries it builds itself: status
    "success" with items, feed information and statistics, or status
    "fail" with an error message and an empty list of items; and it
    returns one unless a fault outside [Exception] goes through.  (The
    chat-source branch can also hand back the dictionary of the chat
    source as it is.) *)
Theorem generic_result_is_built (feed_url : str) (items_count : Z)
    (task_id : option str) (st : State W) :
  is_wechat_source feed_url = false ->
  match fetch_feed env feed_url items_count task_id st with
  | (Ok r, _) => built_result r
  | (Raise e, _) => isinstance_Exception e = false
  end.
Proof.
  intros Hg.
  assert (Hb : post (fetch_feed_body env feed_url items_count task_id) built_result).
  { unfold fetch_feed_body; rewrite Hg.
    eapply post_bind; [apply post_any|intros ? _].
    unfold rss_branch.
    eapply post_bind; [apply post_any|intros feed _].
    destruct (negb (feed_truthy feed)); [apply post_ret; right; eauto|].
    destruct (feed_entries feed) as [[|e rest]|]; try (apply post_ret; right; eauto).
    eapply post_bind; [apply post_any|intros [p s] _].
    apply post_ret; left; eauto. }
  unfold fetch_feed, try_except.
  destruct (fetch_feed_body env feed_url items_count task_id st) as [[r|e] st'] eqn:E.
  - exact (Hb _ _ _ E).
  - destruct (isinstance_Exception e) eqn:Ee; [right; eauto | exact Ee].
Qed.

End ResultShape.

(* ================================================================== *)
(** * Documents that are rejected, entries that are not reached *)
(* ================================================================== *)

Section EdgeBehaviour.

Variable W : Type.
Variable env : Collaborators W.

(** The failure of the generic branch for a document, when it has one. *)
Definition rejection (feed : ParsedFeed) : option str :=
  if negb (feed_truthy feed) then Some (lit "无效的Feed")
  else match feed_entries feed with
       | None => Some (lit "Feed结构无效")
       | Some [] => Some (lit "Feed为空")
       | Some (_ :: _) => None
       end.

(** X13. A document of the generic branch that is empty as a dictionary,
    has no entries attribute, or has no entry is rejected with its own
    message ("无效的Feed", "Feed结构无效", "Feed为空"), and the fetch ends
    there: the world is left as the feed fetcher left it, so the store is
    neither asked nor written.  (The refresh of the settings has returned:
    loading the configuration raised no fault outside [Exception].) *)
Theorem rejected_document_ends_the_fetch (feed_url : str) (items_count : Z)
    (task_id : option str) (st : State W) (feed : ParsedFeed) (w2 : W) (msg : str) :
  is_wechat_source feed_url = false ->
  refresh_returns W env st = true ->
  feedparser_parse env feed_url (snd (load_config env (world st))) = (Ok feed, w2) ->
  rejection feed = Some msg ->
  fetch_feed env feed_url items_count task_id st
  = (Ok (fail_result msg), mkState (refreshed_setting W env st) w2).
Proof.
  intros Hg Hrr Hp Hr.
  unfold fetch_feed, try_except, fetch_feed_body, bind.
  destruct (refresh_settings_returns W env st Hrr) as [v ->].
  rewrite Hg; unfold rss_branch, bind, call; cbn [world skip_processed].
  rewrite Hp; unfold rejection in Hr.
  destruct (negb (feed_truthy feed)); [now injection Hr as <-|].
  destruct (feed_entries feed) as [[|e rest]|]; try discriminate Hr;
    now injection Hr as <-.
Qed.

(** With the gate off, the turn of an identified entry without a title
    never returns: whatever else happens, the title asked for the store is
    missing. *)
Lemma process_entry_untitled_raises feed feed_url task_id (e : Entry) acc (st : State W) :
  skip_processed st && truthy_opt task_id = false ->
  has_identity e = true -> entry_title e = None ->
  exists x st', process_entry env feed feed_url task_id e acc st = (Raise x, st').
Proof.
  intros Hoff Hid Ht; rewrite <- base_id_identity in Hid.
  unfold process_entry; destruct acc as [p s].
  destruct (if truthy_opt (entry_id e) then entry_id e else entry_link e) as [base|];
    [|discriminate Hid].
  rewrite Hid; cbn [negb].
  unfold bind at 1; rewrite (skip_check_disabled env _ task_id st Hoff); cbn [fst].
  rewrite Ht; unfold bind, raise.
  repeat match goal with
         | |- exists x st', (let (_, _) := ?m in _) = _ =>
           destruct m as [[?|?] ?]; [|eexists _, _; reflexivity]
         end.
  eexists _, _; reflexivity.
Qed.

(** X14. When the first entry of a generic feed has an identity but no
    title, and the gate is off (no task id, or the setting off), the fetch
    does not succeed even though [fetch_feed] has a default title for the
    item: the store is given [entry.title] itself.  The fetch returns a
    failure, with nothing for the entries after it either, unless a fault
    outside [Exception] goes through. *)
Theorem untitled_first_entry_fails_the_fetch (feed_url : str) (items_count : Z)
    (task_id : option str) (st : State W) (feed : ParsedFeed) (w2 : W)
    (e : Entry) (rest : list Entry) :
  is_wechat_source feed_url = false ->
  refreshed_setting W env st && truthy_opt task_id = false ->
  feedparser_parse env feed_url (snd (load_config env (world st))) = (Ok feed, w2) ->
  feed_truthy feed = true -> feed_entries feed = Some (e :: rest) ->
  0 < items_count ->
  has_identity e = true -> entry_title e = None ->
  match fetch_feed env feed_url items_count task_id st with
  | (Ok r, _) => exists msg, r = fail_result msg
  | (Raise x, _) => isinstance_Exception x = false
  end.
Proof.
  intros Hg Hoff Hp Hft Hfe Hn Hid Ht.
  unfold fetch_feed, try_except, fetch_feed_body, bind.
  destruct (refresh_settings_state W env st) as [[v ->]|[e0 [He0 [_ ->]]]];
    [|now rewrite He0].
  rewrite Hg; unfold rss_branch, bind, call; cbn [world skip_processed].
  rewrite Hp, Hft, Hfe; cbn [negb process_entries fst length].
  destruct (Z.ltb_spec (Z.of_nat 0) items_count) as [_|Hge]; [|cbn in Hge; lia].
  destruct (process_entry_untitled_raises feed feed_url task_id e ([], O)
              (mkState (refreshed_setting W env st) w2) Hoff Hid Ht) as (x & st' & Hx).
  unfold bind; rewrite Hx.
  destruct (isinstance_Exception x) eqn:Ex; [now exists (exc_str x) | exact Ex].
Qed.

(** X15. Once the loop has collected [items_count] articles it stops: the
    entries after that point are not read, so whatever follows in the feed
    changes neither the articles collected, nor the skipped counter, nor
    the world (no query, no write for them). *)
Theorem entries_after_the_quota_are_not_read feed feed_url items_count task_id
    (entries later : list Entry) acc (st st' : State W) p s :
  process_entries env feed feed_url items_count task_id entries acc st = (Ok (p, s), st') ->
  items_count <= Z.of_nat (length p) ->
  process_entries env feed feed_url items_count task_id (entries ++ later) acc st
  = (Ok (p, s), st').
Proof.
  revert acc st; induction entries as [|e rest IH]; intros acc st;
    cbn [process_entries app].
  - intros H Hq; injection H as -> ->.
    destruct later as [|l later]; [reflexivity|]; cbn [process_entries fst].
    destruct (Z.ltb_spec (Z.of_nat (length p)) items_count); [lia | reflexivity].
  - destruct (Z.of_nat (length (fst acc)) <? items_count); [|now intros H _].
    unfold bind.
    destruct (process_entry env feed feed_url task_id e acc st) as [[acc1|x] st1];
      [apply IH | discriminate].
Qed.

End EdgeBehaviour.

(* ================================================================== *)
(** * Instances on the in-memory world *)
(* ================================================================== *)

Module Instances.

Definition rss_url : str := lit "http://example.org/rss".
Definition chat_url : str := lit "http://mp.weixin.qq.com/x".

(** The three articles of the feed, sent for the task "T". *)
Definition all_sent : list (str * str) :=
  [(lit "http://example.org/1", lit "T");
   (lit "http://example.org/2", lit "T");
   (lit "http://example.org/3", lit "T")].

Definition fresh : State Scenario.World :=
  Scenario.start (Scenario.world_of (Ok Scenario.three_entries) []).

Definition delivered : State Scenario.World :=
  Scenario.start (Scenario.world_of (Ok Scenario.three_entries) all_sent).

Definition chat_answer : WechatResult :=
  mkWechatResult (Some (lit "success"))
    (Some [Scenario.chat_item "http://mp.weixin.qq.com/s/1" "A";
           Scenario.chat_item "http://mp.weixin.qq.com/s/2" "B"]) None.

Definition chatting : State Scenario.World :=
  Scenario.start (Scenario.chat_world (Ok chat_answer)).

Definition untitled : Entry :=
  mkEntry (Some (lit "http://example.org/1")) None None None None None None.

End Instances.

Import Instances.

(** An instance: the history says everything was sent, but no task id is
    given. *)
Lemma no_skips_when_gate_off_witness :
  let out := fetch_feed Scenario.env rss_url 2 None delivered in
  option_map skipped (stats (outcome out)) = Some O.
Proof.
  intros out.
  apply (no_skips_when_gate_off Scenario.World Scenario.env rss_url 2 None
           delivered (snd out) (outcome out)); vm_compute; reflexivity.
Defined.

(** An instance: three entries, two wanted. *)
Lemma generic_items_follow_the_feed_witness :
  let out := fetch_feed Scenario.env rss_url 2 None fresh in
  exists feed w2 entries ps,
    feedparser_parse Scenario.env rss_url
      (snd (load_config Scenario.env (world fresh))) = (Ok feed, w2)
    /\ feed_entries feed = Some entries
    /\ items (outcome out) = Some (map RssItem ps)
    /\ kept_in_order (item_of Scenario.World Scenario.env feed rss_url) entries ps.
Proof.
  intros out.
  apply (generic_items_follow_the_feed Scenario.World Scenario.env rss_url 2 None
           fresh (snd out) (outcome out)); vm_compute; reflexivity.
Defined.

(** An instance: three entries, ten wanted, all three returned. *)
Lemma short_result_accounts_for_every_entry_witness :
  let out := fetch_feed Scenario.env rss_url 10 None fresh in
  exists feed w2 entries sts,
    feedparser_parse Scenario.env rss_url
      (snd (load_config Scenario.env (world fresh))) = (Ok feed, w2)
    /\ feed_entries feed = Some entries
    /\ stats (outcome out) = Some sts
    /\ (10 <= Z.of_nat (processed sts)
        \/ (processed sts + skipped sts + without_identity entries
            = total_available sts)%nat).
Proof.
  intros out.
  apply (short_result_accounts_for_every_entry Scenario.World Scenario.env rss_url 10 None
           fresh (snd out) (outcome out)); vm_compute; reflexivity.
Defined.

(** An instance: a chat source that answers with two items. *)
Lemma chat_items_follow_the_source_witness :
  let out := fetch_feed Scenario.env chat_url 5 None chatting in
  exists answer w2 its ws,
    parse_wechat_source Scenario.env chat_url 5
      (snd (load_config Scenario.env (world chatting))) = (Ok answer, w2)
    /\ wr_items answer = Some its
    /\ items (outcome out) = Some (map WechatItem ws)
    /\ kept_in_order (chat_item_of Scenario.World Scenario.env chat_url) its ws
    /\ option_map info_title (feed_info (outcome out))
       = Some match ws with
              | w :: _ => get_default (w_source w) (lit "微信公众号")
              | [] => lit "未知"
              end.
Proof.
  intros out.
  apply (chat_items_follow_the_source Scenario.World Scenario.env chat_url 5 None
           chatting (snd out) (outcome out)); vm_compute; reflexivity.
Defined.

(** An instance: the three entries, each recorded as sent for the task
    "T" in the history; nothing is recorded for other articles or tasks. *)
Lemma delivered_source_is_all_skipped_witness :
  exists r st',
    fetch_feed Scenario.env rss_url 2 (Some (lit "T")) delivered = (Ok r, st')
    /\ is_success r = true
    /\ items r = Some []
    /\ stats r = Some (mkStats 3 O 3).
Proof.
  apply (delivered_source_is_all_skipped Scenario.World Scenario.env rss_url 2 (lit "T")
           delivered (world delivered) (world delivered) Scenario.three_entries
           [Scenario.entry "http://example.org/1" "One" "<p>Hello <em>world</em></p>";
            Scenario.entry "http://example.org/2" "Two" "<p>Second</p>";
            Scenario.entry "http://example.org/3" "Three" "<p>Third</p>"]);
    try (vm_compute; reflexivity); try discriminate.
  vm_compute.
  do 3 (right; eexists _, _; split; [reflexivity|]; split; [vm_compute; reflexivity|]).
  exact I.
Defined.

(** An instance: scenario C. *)
Lemma clean_html_gives_clean_paragraphs_witness :
  exists paragraphs_ : list str,
    lit "Hello world" = join CleanFacts.paragraph_break paragraphs_
    /\ Forall CleanFacts.clean_line paragraphs_
    /\ Forall (Forall (fun c => isspace c = true -> c = 0x20%N)) paragraphs_.
Proof.
  exact (clean_html_gives_clean_paragraphs Soup.get_text
           (lit "<p>Hello <em>world</em></p>") (lit "Hello world") (lit "Hello world")
           eq_refl eq_refl).
Defined.

(** An instance: an emphasised word inside a sentence. *)
Lemma sub_em_splices_witness :
  Re.sub_em (lit "Hello ") = lit "Hello "
  /\ Re.sub_em (lit "Hello " ++ lit "<em>" ++ lit "big" ++ lit "</em>" ++ lit " world")
     = lit "Hello " ++ lit "big" ++ Re.sub_em (lit " world").
Proof.
  apply (sub_em_splices (lit "Hello ") (lit "big") (lit " world"));
    repeat constructor; discriminate.
Defined.

(** An instance: the first item of the chat source. *)
Lemma wechat_article_id_shape_witness :
  exists digest,
    lit "wechat_01c53fff7086835e9113bea3ab88f0a4" = lit "wechat_" ++ digest
    /\ length digest = 32%nat
    /\ forallb HexFacts.is_hex_digit digest = true
    /\ length (lit "wechat_01c53fff7086835e9113bea3ab88f0a4") = 39%nat.
Proof.
  exact (wechat_article_id_shape Scenario.World Scenario.env chat_url
           (Scenario.chat_item "http://mp.weixin.qq.com/s/1" "A")
           (lit "wechat_01c53fff7086835e9113bea3ab88f0a4") eq_refl).
Defined.

(** An instance: midnight UTC, seen from +08:00 and then from -05:00. *)
Lemma convert_to_local_time_composes_witness :
  let d := mkDatetime 2024 1 1 0 0 0 0 None in
  let r1 := mkDatetime 2024 1 1 8 0 0 0 (Some 28800) in
  let r2 := mkDatetime 2023 12 31 19 0 0 0 (Some (-18000)) in
  _convert_to_local_time (-18000) (Some r1) = Ok (Some r2)
  /\ _convert_to_local_time 28800 (Some r1) = Ok (Some r1).
Proof.
  intros d r1 r2.
  assert (Hv : valid d) by (vm_compute; intuition discriminate).
  exact (convert_to_local_time_composes 28800 (-18000) d r1 r2 Hv eq_refl eq_refl).
Defined.

(** An instance: a generic source. *)
Lemma generic_result_is_built_witness :
  built_result (outcome (fetch_feed Scenario.env rss_url 2 None fresh)).
Proof.
  pose proof (generic_result_is_built Scenario.World Scenario.env rss_url 2 None fresh
                eq_refl) as H.
  vm_compute in H |- *; exact H.
Defined.

(** An instance: a feed without entries. *)
Lemma rejected_document_ends_the_fetch_witness :
  let feed := mkParsedFeed true (Some []) None in
  let st := Scenario.start (Scenario.world_of (Ok feed) []) in
  fetch_feed Scenario.env rss_url 2 None st
  = (Ok (fail_result (lit "Feed为空")),
     mkState (refreshed_setting Scenario.World Scenario.env st) (world st)).
Proof.
  intros feed st.
  exact (rejected_document_ends_the_fetch Scenario.World Scenario.env rss_url 2 None st
           feed (world st) (lit "Feed为空") eq_refl eq_refl eq_refl eq_refl).
Defined.

(** An instance: a feed whose only entry has an id and nothing else. *)
Lemma untitled_first_entry_fails_the_fetch_witness :
  let feed := mkParsedFeed true (Some [untitled]) None in
  let st := Scenario.start (Scenario.world_of (Ok feed) []) in
  exists msg, outcome (fetch_feed Scenario.env rss_url 2 None st) = fail_result msg.
Proof.
  intros feed st.
  exact (untitled_first_entry_fails_the_fetch Scenario.World Scenario.env rss_url 2 None st
           feed (world st) untitled [] eq_refl eq_refl eq_refl eq_refl eq_refl eq_refl
           eq_refl eq_refl).
Defined.

(** An instance: two entries fill a quota of two; a third one follows. *)
Lemma entries_after_the_quota_are_not_read_witness :
  let first_two :=
    [Scenario.entry "http://example.org/1" "One" "<p>1</p>";
     Scenario.entry "http://example.org/2" "Two" "<p>2</p>"] in
  let third := [Scenario.entry "http://example.org/3" "Three" "<p>3</p>"] in
  let run := process_entries Scenario.env Scenario.three_entries rss_url 2 None in
  run (first_two ++ third) ([], O) fresh = run first_two ([], O) fresh.
Proof.
  intros first_two third run.
  pose (out := run first_two ([], O) fresh).
  pose (acc := match fst out with Ok a => a | Raise _ => ([], O) end).
  assert (E : run first_two ([], O) fresh = (Ok (fst acc, snd acc), snd out))
    by (vm_compute; reflexivity).
  rewrite E.
  apply (entries_after_the_quota_are_not_read Scenario.World Scenario.env
           Scenario.three_entries rss_url 2 None first_two third ([], O) fresh (snd out)
           (fst acc) (snd acc) E).
  vm_compute; discriminate.
Defined.
